(** * Thruster: scene graph and craft dynamics of [main.ts]

    A shallow embedding of [src/main.ts] (classes [World], [Shape] and
    [Craft]) and the properties of its specification.

    Numbers.  A TypeScript [number] is modelled as a real number ([R]):
    the properties below are those of the clamping and bouncing logic, in
    exact arithmetic; rounding, infinities and NaN are outside the model.

    Objects.  [main.ts] uses the result of [add], [sub] and [scale] and
    keeps using their receiver as it was: they return a new vector.  It
    calls [setX], [setY] and [normalize] as statements, and only on a vector
    the calling method has just created: they update their receiver, which
    no other object shares.  So a vector is a value here, and the three
    updates return the updated vector.  Shapes are shared between the
    [World] collection and its callers and are mutated through both
    ([sceneIndex]): they live in a store and the collection holds
    references.  [World.update] and [World.render] only call [update] and
    [render] on each shape of the collection in turn. *)

From Stdlib Require Import Reals Lra Lia ZArith List Bool.
From stdpp Require Import base decidable list.
Import ListNotations.

Open Scope R_scope.

(** ** Math2d: the vector and matrix library used by [main.ts] *)

Module Math2d.

(** Modelled from the spec: the [Math2d] namespace is not among the
    sources; [Vector] is "two scalar coordinates (x, y)" (section 3), with
    component-wise [add], [sub] and [scale], and [magSquared] the "sum of
    squared components" (section 4.1). *)
Record Vector : Type := create { getX : R; getY : R }.

Definition zero : Vector := create 0 0.

Definition setX (v : Vector) (x : R) : Vector := create x (getY v).
Definition setY (v : Vector) (y : R) : Vector := create (getX v) y.

Definition add (a b : Vector) : Vector :=
  create (getX a + getX b) (getY a + getY b).

Definition sub (a b : Vector) : Vector :=
  create (getX a - getX b) (getY a - getY b).

Definition scale (v : Vector) (s : R) : Vector :=
  create (getX v * s) (getY v * s).

Definition magSquared (v : Vector) : R :=
  getX v * getX v + getY v * getY v.

(** The magnitude of a vector (not called by [main.ts]; used to state
    properties about speeds). *)
Definition magnitude (v : Vector) : R := sqrt (magSquared v).

(** Modelled from the spec: [normalize] rescales "to unit magnitude";
    "if magnitude is zero, return the zero vector unchanged rather than
    dividing by zero" (section 4.1, section 7).  The guard is written
    out: it is the policy of the spec, not a by-product of division
    in [R]. *)
Definition normalize (v : Vector) : Vector :=
  let m := magnitude v in
  if Req_dec_T m 0 then v
  else create (getX v / m) (getY v / m).

(** Modelled from the spec: [Math2d.Matrix] is not among the sources
    either.  [main.ts] only uses the operations below, and the
    properties proved here hold for every implementation of them, so
    the matrix type is an interface. *)
Class MatrixOps : Type := {
  Matrix : Type;
  identity : Matrix;
  createRotationMatrixDegrees : R -> Matrix;
  createRotationAndTranslationMatrixRadians : R -> Vector -> Matrix;
  apply : Matrix -> Vector -> Vector;
  mul : Matrix -> Matrix -> Matrix
}.

(** Modelled from the spec: one implementation of the interface, "a 2D
    affine transform (rotation + translation)" (section 3): a 2x2 linear
    part and a translation.  [mul] multiplies the linear parts and keeps
    the translation of the receiver (section 4.1, [compose]). *)
Record Affine : Type := mkAffine {
  m00 : R; m01 : R;
  m10 : R; m11 : R;
  tx : R; ty : R
}.

Definition affine_rotation (angle : R) (t : Vector) : Affine :=
  mkAffine (cos angle) (- sin angle) (sin angle) (cos angle)
           (getX t) (getY t).

Definition affine_apply (m : Affine) (v : Vector) : Vector :=
  create (m00 m * getX v + m01 m * getY v + tx m)
         (m10 m * getX v + m11 m * getY v + ty m).

Definition affine_mul (a b : Affine) : Affine :=
  mkAffine (m00 a * m00 b + m01 a * m10 b) (m00 a * m01 b + m01 a * m11 b)
           (m10 a * m00 b + m11 a * m10 b) (m10 a * m01 b + m11 a * m11 b)
           (tx a) (ty a).

Definition AffineOps : MatrixOps := {|
  Matrix := Affine;
  identity := mkAffine 1 0 0 1 0 0;
  createRotationMatrixDegrees := fun d => affine_rotation (d * PI / 180) zero;
  createRotationAndTranslationMatrixRadians := affine_rotation;
  apply := affine_apply;
  mul := affine_mul
|}.

End Math2d.

Import Math2d.

(** ** Exceptions and arrays of the run time *)

(** What a method of [main.ts] can throw: reading a field or calling a
    method of [undefined]. *)
Inductive Exn : Type :=
| UndefinedPoints                    (* [this.points] was never assigned *)
| UndefinedVertex (i : nat)          (* [this.points[i]] is [undefined] and
                                        [apply] reads its coordinates *)
| UndefinedRenderPoint (i : Z).      (* [this.renderPoints[i]] is [undefined] *)

Inductive outcome (A : Type) : Type :=
| Ok (a : A)
| Throw (e : Exn).
Arguments Ok {A} a.
Arguments Throw {A} e.

Definition bind {A B} (m : outcome A) (k : A -> outcome B) : outcome B :=
  match m with
  | Ok a => k a
  | Throw e => Throw e
  end.

Notation "'do' x <- m ; k" := (bind m (fun x => k))
  (at level 10, x name, m at level 100, k at level 200,
   format "'[v' 'do'  x  <-  m ; '/' k ']'").

Definition orThrow {A} (o : option A) (e : Exn) : outcome A :=
  match o with
  | Some a => Ok a
  | None => Throw e
  end.

(** [for (let i = start; i < start + n; i++) body] *)
Fixpoint forLoop {S} (n start : nat) (body : nat -> S -> outcome S) (s : S)
  : outcome S :=
  match n with
  | O => Ok s
  | Datatypes.S n' => do s' <- body start s; forLoop n' (Datatypes.S start) body s'
  end.

(** A JavaScript array: a slot is a value or empty ([None], which reads
    as [undefined]). *)
Abbreviation Array A := (list (option A)).

(** [a[i]]: [undefined] ([None]) outside the array and at an empty slot. *)
Definition array_get {A} (a : Array A) (i : Z) : option A :=
  if (i <? 0)%Z then None
  else match a !! Z.to_nat i with
       | Some slot => slot
       | None => None
       end.

(** [a[i] = v]: writes in place inside the array, and extends it (with
    empty slots up to [i]) outside. *)
Definition array_set {A} (a : Array A) (i : nat) (v : A) : Array A :=
  if (i <? length a)%nat then <[i := Some v]> a
  else a ++ replicate (i - length a) None ++ [Some v].

(** [a.insertAt(i, v)], as [a.splice(i, 0, v)]: a negative index counts
    from the end, and an index past the end appends. *)
Definition insertAt {A} (a : list A) (i : Z) (v : A) : list A :=
  let len := Z.of_nat (length a) in
  let start := if (i <? 0)%Z then Z.max (len + i) 0 else Z.min i len in
  take (Z.to_nat start) a ++ v :: drop (Z.to_nat start) a.

(** [a.removeAt(i)]: removes the element at [i]; an index outside the
    array removes nothing. *)
Definition removeAt {A} (a : list A) (i : Z) : list A :=
  if ((0 <=? i) && (i <? Z.of_nat (length a)))%Z
  then take (Z.to_nat i) a ++ drop (Datatypes.S (Z.to_nat i)) a
  else a.

(** ** The program *)

Section Program.

Context {M : MatrixOps}.

(** A reference to a shape object. *)
Definition ref : Type := nat.

(** *** class World (fields) *)
Record World : Type := mkWorld {
  gravity : Vector;
  toScreen : Matrix;
  shapes : list ref
}.

Definition World_new : World := {|
  gravity := create 0 (-0.02);
  toScreen := createRotationAndTranslationMatrixRadians PI (create 80 60);
  shapes := []
|}.

(** *** class Shape *)

(** [points] is declared but not assigned by the constructor of [Shape]:
    it is [None] until a subclass assigns it. *)
Record Shape : Type := mkShape {
  points : option (list Vector);
  renderPoints : Array Vector;
  worldPos : Vector;
  xform : Matrix;
  sceneIndex : Z
}.

Definition Shape_new : Shape := {|
  points := None;
  renderPoints := [];
  worldPos := zero;
  xform := identity;
  sceneIndex := -1
|}.

Definition set_renderPoints (s : Shape) (rp : Array Vector) : Shape :=
  mkShape (points s) rp (worldPos s) (xform s) (sceneIndex s).
Definition set_worldPos (s : Shape) (p : Vector) : Shape :=
  mkShape (points s) (renderPoints s) p (xform s) (sceneIndex s).
Definition set_xform (s : Shape) (m : Matrix) : Shape :=
  mkShape (points s) (renderPoints s) (worldPos s) m (sceneIndex s).
Definition set_sceneIndex (s : Shape) (i : Z) : Shape :=
  mkShape (points s) (renderPoints s) (worldPos s) (xform s) i.

(** One iteration of the loop of [Shape.update]. *)
Definition Shape_update_body (w : World) (i : nat) (s : Shape) : outcome Shape :=
  do pts <- orThrow (points s) UndefinedPoints;
  do p <- orThrow (pts !! i) (UndefinedVertex i);
  let point := apply (xform s) p in
  let point := add point (worldPos s) in
  let point := apply (toScreen w) point in
  Ok (set_renderPoints s (array_set (renderPoints s) i point)).

(** [Shape.update]: [for (let i = 0; i < 4; i++)]. *)
Definition Shape_update (w : World) (s : Shape) : outcome Shape :=
  forLoop 4 0 (Shape_update_body w) s.

(** A call [i.drawLine(x0, y0, x1, y1, thickness)] on the image. *)
Record DrawLine : Type := mkDrawLine {
  x0 : R; y0 : R; x1 : R; y1 : R; thickness : R
}.

Definition Shape_drawLine (s : Shape) (f t : Z) : outcome DrawLine :=
  do pf <- orThrow (array_get (renderPoints s) f) (UndefinedRenderPoint f);
  do pt <- orThrow (array_get (renderPoints s) t) (UndefinedRenderPoint t);
  Ok (mkDrawLine (getX pf) (getY pf) (getX pt) (getY pt) 2).

(** [for (let j = start; j < start + n; j++) this.drawLine(i, j, j + 1)],
    with the calls made on the image. *)
Fixpoint Shape_render_loop (s : Shape) (n start : nat) : outcome (list DrawLine) :=
  match n with
  | O => Ok []
  | Datatypes.S n' =>
      do l <- Shape_drawLine s (Z.of_nat start) (Z.of_nat start + 1);
      do ls <- Shape_render_loop s n' (Datatypes.S start);
      Ok (l :: ls)
  end.

(** [Shape.render]: the calls made on the image, in order. *)
Definition Shape_render (s : Shape) : outcome (list DrawLine) :=
  do pts <- orThrow (points s) UndefinedPoints;
  let len := Z.of_nat (length pts) in
  do ls <- Shape_render_loop s (Z.to_nat (len - 1)) 0;
  do l <- Shape_drawLine s (len - 1) 0;
  Ok (ls ++ [l]).

(** *** class Craft *)

(** The readonly tuning constants, as the constructor assigns them. *)
Definition maxDownSpeed : R := -0.5.
Definition maxAirSpeed : R := 0.8.
Definition maxAccel : R := 0.04.
Definition maxAirSpeedSq : R := maxAirSpeed * maxAirSpeed.
Definition maxAccelSq : R := maxAccel * maxAccel.

(** [shape] holds the fields inherited from [Shape].  The effect sprite
    is a handle of the effect system and carries no state of its own
    here. *)
Record Craft : Type := mkCraft {
  shape : Shape;
  heading : Vector;
  vel : Vector;
  thrust : Vector;
  thrusting : bool;
  beganThrusting : bool;
  stoppedThrusting : bool
}.

Definition Craft_new : Craft := {|
  shape := mkShape (Some [create 0 8; create 4 0; create 0 (-2); create (-4) 0])
                   (renderPoints Shape_new) (worldPos Shape_new)
                   (xform Shape_new) (sceneIndex Shape_new);
  heading := create 0 1;
  vel := zero;
  thrust := zero;
  thrusting := false;
  beganThrusting := false;
  stoppedThrusting := false
|}.

Definition set_shape (c : Craft) (s : Shape) : Craft :=
  mkCraft s (heading c) (vel c) (thrust c)
          (thrusting c) (beganThrusting c) (stoppedThrusting c).

(** The buttons of the controller, as polled during one update. *)
Record Controller : Type := mkController {
  A_isPressed : bool;
  left_isPressed : bool;
  right_isPressed : bool
}.

(** The calls made on the effect system. *)
Inductive Effect : Type :=
| StartTrail        (* [effectSprite.startEffect(effects.trail)] *)
| ClearParticles.   (* [effects.clearParticles(effectSprite)] *)

Definition Craft_calcVelocity (w : World) (c : Craft) : Vector :=
  let accel := add (thrust c) (gravity w) in
  let newVel := add (vel c) accel in
  let newVel :=
    if Rlt_dec (getY newVel) maxDownSpeed then setY newVel maxDownSpeed
    else newVel in
  if Rgt_dec (magSquared newVel) maxAirSpeedSq
  then scale (normalize newVel) maxAirSpeed
  else newVel.

Definition Craft_bounceOffSides (pos vel : Vector) : Vector :=
  let maybePos := add pos vel in
  let impulse := zero in
  let impulse :=
    if Rgt_dec (getX maybePos) 76 then setX impulse (- maxAirSpeed)
    else if Rlt_dec (getX maybePos) (-76) then setX impulse maxAirSpeed
    else impulse in
  let impulse :=
    if Rgt_dec (getY maybePos) 56 then setY impulse (- maxAirSpeed)
    else if Rlt_dec (getY maybePos) (-56) then setY impulse maxAirSpeed
    else impulse in
  scale (normalize impulse) maxAirSpeed.

Definition Craft_updateEffects (c : Craft) : Craft * list Effect :=
  let fx :=
    if beganThrusting c then [StartTrail]
    else if stoppedThrusting c then [ClearParticles]
    else [] in
  (mkCraft (shape c) (heading c) (vel c) (thrust c) (thrusting c) false false,
   fx).

Definition Craft_applyThrust (c : Craft) : Craft :=
  let began := if negb (thrusting c) then true else beganThrusting c in
  mkCraft (shape c) (heading c) (vel c) (scale (heading c) 0.08)
          true began (stoppedThrusting c).

Definition Craft_releaseThrust (c : Craft) : Craft :=
  let stopped := if thrusting c then true else stoppedThrusting c in
  mkCraft (shape c) (heading c) (vel c) (scale (thrust c) 0.6)
          false (beganThrusting c) stopped.

Definition Craft_handleInput (ctl : Controller) (c : Craft) : Craft :=
  let c := if A_isPressed ctl then Craft_applyThrust c
           else Craft_releaseThrust c in
  let sign : R :=
    if left_isPressed ctl then -1
    else if right_isPressed ctl then 1
    else 0 in
  let rotate := createRotationMatrixDegrees (sign * 1.5) in
  set_shape c (set_xform (shape c) (mul (xform (shape c)) rotate)).

(** [Craft.update]: the craft after the update and the calls made on the
    effect system. *)
Definition Craft_update (w : World) (ctl : Controller) (c : Craft)
  : outcome (Craft * list Effect) :=
  do s <- Shape_update w (shape c);
  let c := set_shape c s in
  let c := Craft_handleInput ctl c in
  let pos := worldPos (shape c) in
  let newVel := Craft_calcVelocity w c in
  let impulse := Craft_bounceOffSides pos newVel in
  let newVel := add newVel impulse in
  let pos := add pos newVel in
  let '(c, fx) := Craft_updateEffects c in
  Ok (mkCraft (set_worldPos (shape c) pos)
              (apply (xform (shape c)) (create 0 1))
              newVel (thrust c)
              (thrusting c) (beganThrusting c) (stoppedThrusting c),
      fx).

(** [Craft.render]: the lines drawn and the position given to the effect
    sprite. *)
Definition Craft_render (w : World) (c : Craft) : outcome (list DrawLine * Vector) :=
  do ls <- Shape_render (shape c);
  let screenPos := apply (toScreen w) (sub (worldPos (shape c)) (scale (heading c) 8)) in
  Ok (ls, screenPos).

(** *** class World (methods) *)

(** The objects the collection refers to: a plain [Shape] or a [Craft]. *)
Inductive Obj : Type :=
| ShapeObj (s : Shape)
| CraftObj (c : Craft).

Definition obj_shape (o : Obj) : Shape :=
  match o with
  | ShapeObj s => s
  | CraftObj c => shape c
  end.

Definition obj_set_sceneIndex (o : Obj) (i : Z) : Obj :=
  match o with
  | ShapeObj s => ShapeObj (set_sceneIndex s i)
  | CraftObj c => CraftObj (set_shape c (set_sceneIndex (shape c) i))
  end.

(** The store: the object behind each reference. *)
Definition Store : Type := ref -> Obj.

Definition store_set (st : Store) (r : ref) (o : Obj) : Store :=
  fun r' => if Nat.eqb r' r then o else st r'.

Definition set_shapes (w : World) (l : list ref) : World :=
  mkWorld (gravity w) (toScreen w) l.

Definition World_add (s : ref) (w : World) (st : Store) : World * Store :=
  let st := store_set st s
              (obj_set_sceneIndex (st s) (Z.of_nat (length (shapes w)))) in
  (set_shapes w (insertAt (shapes w) (sceneIndex (obj_shape (st s))) s), st).

Definition World_remove (s : ref) (w : World) (st : Store) : World * Store :=
  let w := set_shapes w (removeAt (shapes w) (sceneIndex (obj_shape (st s)))) in
  let st := store_set st s (obj_set_sceneIndex (st s) (-1)) in
  (w, st).

(** [this.shapes[i].update()], by the class of the object. *)
Definition Obj_update (w : World) (ctl : Controller) (o : Obj)
  : outcome (Obj * list Effect) :=
  match o with
  | ShapeObj s => do s' <- Shape_update w s; Ok (ShapeObj s', [])
  | CraftObj c => do r <- Craft_update w ctl c; Ok (CraftObj (fst r), snd r)
  end.

(** The loop of [World.update] over the shapes that remain to be
    updated: the store after the pass and the effect calls made. *)
Fixpoint World_update_loop (w : World) (ctl : Controller) (rs : list ref)
         (st : Store) : outcome (Store * list Effect) :=
  match rs with
  | [] => Ok (st, [])
  | r :: rest =>
      do u <- Obj_update w ctl (st r);
      do v <- World_update_loop w ctl rest (store_set st r (fst u));
      Ok (fst v, snd u ++ snd v)
  end.

(** [World.update].  [w] is also the global [world] that [Shape.update]
    and [Craft.calcVelocity] read: the program has one world. *)
Definition World_update (w : World) (ctl : Controller) (st : Store)
  : outcome (Store * list Effect) :=
  World_update_loop w ctl (shapes w) st.

(** [this.shapes[i].render(img)], by the class of the object: the lines
    drawn and, for a craft, the position given to its effect sprite. *)
Definition Obj_render (w : World) (o : Obj)
  : outcome (list DrawLine * option Vector) :=
  match o with
  | ShapeObj s => do ls <- Shape_render s; Ok (ls, None)
  | CraftObj c => do r <- Craft_render w c; Ok (fst r, Some (snd r))
  end.

Fixpoint World_render_loop (w : World) (rs : list ref) (st : Store)
  : outcome (list (list DrawLine * option Vector)) :=
  match rs with
  | [] => Ok []
  | r :: rest =>
      do d <- Obj_render w (st r);
      do ds <- World_render_loop w rest st;
      Ok (d :: ds)
  end.

(** [World.render]: what each shape of the collection draws, in order. *)
Definition World_render (w : World) (st : Store)
  : outcome (list (list DrawLine * option Vector)) :=
  World_render_loop w (shapes w) st.

(** *** The program: [world.add(new Craft())], then one [world.update()]
    per update tick and one [world.render(view)] per paint. *)

(** The store once [new Craft()] has been evaluated: the craft is the
    object of reference 0. *)
Definition craftStore : Store := fun _ => CraftObj Craft_new.

Definition game_start : World * Store := World_add 0%nat World_new craftStore.

(** The update ticks of a game, one controller state per tick: the
    store at the end and the effect calls of each tick. *)
Fixpoint game_ticks (w : World) (ctls : list Controller) (st : Store)
  : outcome (Store * list (list Effect)) :=
  match ctls with
  | [] => Ok (st, [])
  | ctl :: rest =>
      do u <- World_update w ctl st;
      do v <- game_ticks w rest (fst u);
      Ok (fst v, snd u :: snd v)
  end.

End Program.

(** ** Vocabulary of the properties *)

Section Vocabulary.

Context {M : MatrixOps}.

(** The velocity integrated over one tick, before any clamp. *)
Definition integrated (w : World) (c : Craft) : Vector :=
  add (vel c) (add (thrust c) (gravity w)).

(** The floor on the Y component. *)
Definition floorY (v : Vector) : Vector :=
  if Rlt_dec (getY v) maxDownSpeed then setY v maxDownSpeed else v.

(** The impulse of [bounceOffSides] before its final normalize and
    rescale. *)
Definition rawImpulse (p : Vector) : Vector :=
  let impulse := zero in
  let impulse :=
    if Rgt_dec (getX p) 76 then setX impulse (- maxAirSpeed)
    else if Rlt_dec (getX p) (-76) then setX impulse maxAirSpeed
    else impulse in
  if Rgt_dec (getY p) 56 then setY impulse (- maxAirSpeed)
  else if Rlt_dec (getY p) (-56) then setY impulse maxAirSpeed
  else impulse.

(** The screen-space point of a local vertex: the transform of the
    shape, then the translation by [worldPos], then the screen transform
    of the world. *)
Definition screenPoint (w : World) (s : Shape) (p : Vector) : Vector :=
  apply (toScreen w) (add (apply (xform s) p) (worldPos s)).

(** The render point at index [i] has been written. *)
Definition written (s : Shape) (i : Z) : Prop :=
  exists v, array_get (renderPoints s) i = Some v.

(** The invariant of the collection: the scene index of every shape in
    it is its position. *)
Definition indexed (w : World) (st : Store) : Prop :=
  forall (i : nat) (r : ref),
    shapes w !! i = Some r -> sceneIndex (obj_shape (st r)) = Z.of_nat i.

(** A store in which every reference holds a freshly constructed shape. *)
Definition freshStore : Store := fun _ => ShapeObj Shape_new.

(** The world after [add] of the shapes 0, 1 and 2, in this order. *)
Definition threeShapes : World * Store :=
  let r0 := World_add 0%nat World_new freshStore in
  let r1 := World_add 1%nat (fst r0) (snd r0) in
  World_add 2%nat (fst r1) (snd r1).

(** A shape of five vertices, never updated. *)
Definition pentagon : Shape :=
  mkShape (Some [create 0 8; create 4 0; create 2 (-4); create (-2) (-4); create (-4) 0])
          [] zero identity (-1).

(** The signed steering increment read from the controller. *)
Definition steerSign (ctl : Controller) : R :=
  if left_isPressed ctl then -1
  else if right_isPressed ctl then 1
  else 0.

(** The effect call owed to a change of thrust mode: [mode] is the mode
    before the tick ([true] is THRUSTING) and [pressed] the thrust button
    during it. *)
Definition edge_effect (mode pressed : bool) : list Effect :=
  match mode, pressed with
  | false, true => [StartTrail]
  | true, false => [ClearParticles]
  | _, _ => []
  end.

(** The effect calls owed to a run of ticks, tick by tick: the mode
    after a tick is the state of the button during it. *)
Fixpoint edge_effects (mode : bool) (pressed : list bool) : list (list Effect) :=
  match pressed with
  | [] => []
  | b :: rest => edge_effect mode b :: edge_effects b rest
  end.

(** The craft and the effect calls that [update] returns, given the
    shape [s] that the base [update] returned. *)
Definition afterUpdate (w : World) (ctl : Controller) (c : Craft) (s : Shape)
  : Craft * list Effect :=
  let c1 := Craft_handleInput ctl (set_shape c s) in
  let v := Craft_calcVelocity w c1 in
  let newVel := add v (Craft_bounceOffSides (worldPos (shape c1)) v) in
  (mkCraft (set_worldPos (shape c1) (add (worldPos (shape c1)) newVel))
           (apply (xform (shape c1)) (create 0 1))
           newVel (thrust c1) (thrusting c1) false false,
   snd (Craft_updateEffects c1)).

(** A run of update ticks of the frame scheduler, one controller state
    per tick: the craft at the end and the effect calls of each tick. *)
Fixpoint Craft_run (w : World) (ctls : list Controller) (c : Craft)
  : outcome (Craft * list (list Effect)) :=
  match ctls with
  | [] => Ok (c, [])
  | ctl :: rest =>
      do r <- Craft_update w ctl c;
      do r' <- Craft_run w rest (fst r);
      Ok (fst r', snd r :: snd r')
  end.

(** The craft as constructed, but flying with velocity [v] and thrust
    [t]. *)
Definition flying (v t : Vector) : Craft :=
  mkCraft (shape Craft_new) (create 0 1) v t false false false.

(** The line that [drawLine] draws from the render point [a] to the
    render point [b]. *)
Definition polyLine (a b : Vector) : DrawLine :=
  mkDrawLine (getX a) (getY a) (getX b) (getY b) 2.

(** A shape with the four vertices of the craft whose cache holds the
    render points [a], [b], [c] and [d]. *)
Definition rendered (a b c d : Vector) : Shape :=
  set_renderPoints (shape Craft_new) [Some a; Some b; Some c; Some d].

(** The position that [update] predicts for a craft: its position plus
    the velocity that [calcVelocity] returns once the input is handled. *)
Definition predicted (w : World) (ctl : Controller) (c : Craft) : Vector :=
  add (worldPos (shape c)) (Craft_calcVelocity w (Craft_handleInput ctl c)).

(** An object that [update] accepts: its shape has at least four
    vertices. *)
Definition fourVertices (o : Obj) : Prop :=
  exists pts, points (obj_shape o) = Some pts /\ (4 <= length pts)%nat.

(** An object with exactly four vertices. *)
Definition quad (o : Obj) : Prop :=
  exists pts, points (obj_shape o) = Some pts /\ length pts = 4%nat.

(** An object with exactly four vertices whose four render points have
    been written. *)
Definition drawable (o : Obj) : Prop :=
  quad o /\
  forall i : nat, (i < 4)%nat -> written (obj_shape o) (Z.of_nat i).

(** The four vertices of the craft. *)
Definition craftPoints : list Vector :=
  [create 0 8; create 4 0; create 0 (-2); create (-4) 0].

(** The craft as constructed, but at position [pos]. *)
Definition craftAt (pos : Vector) : Craft :=
  set_shape Craft_new (set_worldPos (shape Craft_new) pos).

End Vocabulary.

(** ** Properties of the vector operations *)

Section VectorFacts.

Lemma vector_eq (a b : Vector) :
  getX a = getX b -> getY a = getY b -> a = b.
Proof. destruct a, b; simpl; intros -> ->; reflexivity. Qed.

Lemma magSquared_nonneg (v : Vector) : 0 <= magSquared v.
Proof. unfold magSquared. nra. Qed.

Lemma magSquared_zero : magSquared zero = 0.
Proof. unfold magSquared, zero; simpl. lra. Qed.

Lemma magSquared_scale (v : Vector) (s : R) :
  magSquared (scale v s) = s * s * magSquared v.
Proof. unfold magSquared, scale; simpl. ring. Qed.

Lemma magnitude_nonneg (v : Vector) : 0 <= magnitude v.
Proof. apply sqrt_pos. Qed.

Lemma magnitude_sqr (v : Vector) : magnitude v * magnitude v = magSquared v.
Proof. apply sqrt_sqrt, magSquared_nonneg. Qed.

Lemma magnitude_pos (v : Vector) : 0 < magSquared v -> 0 < magnitude v.
Proof. apply sqrt_lt_R0. Qed.

Lemma magnitude_zero : magnitude zero = 0.
Proof. unfold magnitude. rewrite magSquared_zero. apply sqrt_0. Qed.

(** The zero guard: the zero vector is returned unchanged. *)
Lemma normalize_zero : normalize zero = zero.
Proof.
  unfold normalize. rewrite magnitude_zero.
  destruct (Req_dec_T 0 0) as [_ | n]; [reflexivity | contradiction n; reflexivity].
Qed.

(** Away from zero the vector is divided by its magnitude. *)
Lemma normalize_nonzero (v : Vector) :
  0 < magSquared v ->
  normalize v = create (getX v / magnitude v) (getY v / magnitude v).
Proof.
  intros Hpos. unfold normalize.
  destruct (Req_dec_T (magnitude v) 0) as [e | _]; [| reflexivity].
  pose proof (magnitude_pos v Hpos). lra.
Qed.

Lemma normalize_unit (v : Vector) :
  0 < magSquared v -> magSquared (normalize v) = 1.
Proof.
  intros Hpos. rewrite (normalize_nonzero v Hpos).
  pose proof (magnitude_pos v Hpos) as Hm.
  pose proof (magnitude_sqr v) as Hs.
  unfold magSquared at 1; simpl.
  assert (E : getX v / magnitude v * (getX v / magnitude v)
              + getY v / magnitude v * (getY v / magnitude v)
              = magSquared v / (magnitude v * magnitude v)).
  { unfold magSquared. field. lra. }
  rewrite E, Hs. field. lra.
Qed.

(** A vector rescaled to [s] after [normalize] has squared magnitude
    [s * s]. *)
Lemma rescale_magSquared (v : Vector) (s : R) :
  0 < magSquared v -> magSquared (scale (normalize v) s) = s * s.
Proof.
  intros Hpos. rewrite magSquared_scale, (normalize_unit v Hpos). ring.
Qed.

Lemma rescale_magnitude (v : Vector) (s : R) :
  0 < magSquared v -> 0 <= s -> magnitude (scale (normalize v) s) = s.
Proof.
  intros Hpos Hs. unfold magnitude.
  rewrite (rescale_magSquared v s Hpos). apply sqrt_square, Hs.
Qed.

Lemma magnitude_le (v : Vector) (s : R) :
  0 <= s -> magSquared v <= s * s -> magnitude v <= s.
Proof.
  intros Hs Hle. unfold magnitude.
  rewrite <- (sqrt_square s Hs). apply sqrt_le_1_alt, Hle.
Qed.

Lemma magnitude_gt (v : Vector) (s : R) :
  0 <= s -> s * s < magSquared v -> s < magnitude v.
Proof.
  intros Hs Hlt. unfold magnitude.
  rewrite <- (sqrt_square s Hs) at 1. apply sqrt_lt_1_alt. nra.
Qed.

Lemma magnitude_of_square (v : Vector) (m : R) :
  0 <= m -> magSquared v = m * m -> magnitude v = m.
Proof. intros Hm E. unfold magnitude. rewrite E. apply sqrt_square, Hm. Qed.

End VectorFacts.

(** ** Craft dynamics: the velocity clamps *)

Section CraftVelocity.

Context {M : MatrixOps}.

Lemma calcVelocity_unfold (w : World) (c : Craft) :
  Craft_calcVelocity w c =
    if Rgt_dec (magSquared (floorY (integrated w c))) maxAirSpeedSq
    then scale (normalize (floorY (integrated w c))) maxAirSpeed
    else floorY (integrated w c).
Proof. reflexivity. Qed.

Lemma maxAirSpeedSq_value : maxAirSpeedSq = 0.64.
Proof. unfold maxAirSpeedSq, maxAirSpeed. lra. Qed.

Lemma floorY_getY (v : Vector) : maxDownSpeed <= getY (floorY v).
Proof.
  unfold floorY. destruct (Rlt_dec (getY v) maxDownSpeed); simpl; lra.
Qed.

(** C1. Whatever the velocity and thrust of the craft and the gravity
    of the world, the velocity returned by [calcVelocity] has squared
    magnitude at most [maxAirSpeedSq] and magnitude at most
    [maxAirSpeed]: when the cap fires the floored velocity is normalized
    and rescaled to exactly [maxAirSpeed], and when it does not the
    floored velocity is returned as it is, already within the cap. *)
Theorem calcVelocity_speed_cap (w : World) (c : Craft) :
  let f := floorY (integrated w c) in
  let v := Craft_calcVelocity w c in
  magSquared v <= maxAirSpeedSq /\
  magnitude v <= maxAirSpeed /\
  (magSquared f > maxAirSpeedSq ->
     v = scale (normalize f) maxAirSpeed /\ magnitude v = maxAirSpeed) /\
  (~ magSquared f > maxAirSpeedSq -> v = f).
Proof.
  intros f v. subst v. rewrite calcVelocity_unfold. fold f.
  assert (Hs : 0 <= maxAirSpeed) by (unfold maxAirSpeed; lra).
  destruct (Rgt_dec (magSquared f) maxAirSpeedSq) as [Hgt | Hle].
  - assert (Hpos : 0 < magSquared f).
    { rewrite maxAirSpeedSq_value in Hgt. lra. }
    split; [| split; [| split]].
    + rewrite (rescale_magSquared f maxAirSpeed Hpos).
      unfold maxAirSpeedSq. lra.
    + rewrite (rescale_magnitude f maxAirSpeed Hpos Hs). lra.
    + intros _. split; [reflexivity |].
      apply (rescale_magnitude f maxAirSpeed Hpos Hs).
    + intros Hn. contradiction.
  - split; [| split; [| split]].
    + lra.
    + apply magnitude_le; [exact Hs |]. fold maxAirSpeedSq. lra.
    + intros Hgt. contradiction.
    + intros _. reflexivity.
Qed.

(** C2. Whatever the velocity and thrust of the craft and the gravity
    of the world, the Y component of the velocity returned by
    [calcVelocity] is at least [maxDownSpeed], also when the floor on Y is
    followed by the rescaling of the speed cap. *)
Theorem calcVelocity_down_floor (w : World) (c : Craft) :
  maxDownSpeed <= getY (Craft_calcVelocity w c).
Proof.
  rewrite calcVelocity_unfold.
  set (f := floorY (integrated w c)).
  pose proof (floorY_getY (integrated w c)) as Hy. fold f in Hy.
  destruct (Rgt_dec (magSquared f) maxAirSpeedSq) as [Hgt | Hle];
    [| exact Hy].
  assert (Hpos : 0 < magSquared f).
  { rewrite maxAirSpeedSq_value in Hgt. lra. }
  assert (Hm : maxAirSpeed < magnitude f).
  { apply magnitude_gt; [unfold maxAirSpeed; lra | exact Hgt]. }
  rewrite (normalize_nonzero f Hpos). simpl.
  unfold maxDownSpeed, maxAirSpeed in *.
  assert (Hinv : 0 < / magnitude f) by (apply Rinv_0_lt_compat; lra).
  assert (Hk : 0.8 * / magnitude f < 1).
  { apply (Rmult_lt_reg_r (magnitude f)); [lra |].
    rewrite Rmult_assoc, Rinv_l by lra. lra. }
  assert (Hk0 : 0 < 0.8 * / magnitude f) by nra.
  replace (getY f / magnitude f * 0.8) with (getY f * (0.8 * / magnitude f))
    by (field; lra).
  destruct (Rle_lt_dec 0 (getY f)); nra.
Qed.

(** The speed cap alone: (3, 4) is integrated, of magnitude 5, and
    rescaled to magnitude 0.8. *)
Example calcVelocity_capped :
  Craft_calcVelocity World_new (flying (create 3 4.02) zero) = create 0.48 0.64.
Proof.
  rewrite calcVelocity_unfold.
  assert (Hf : floorY (integrated World_new (flying (create 3 4.02) zero))
               = create 3 4).
  { unfold floorY, integrated, maxDownSpeed. simpl.
    destruct (Rlt_dec _ _) as [Hlt | _]; [exfalso; lra |].
    apply vector_eq; simpl; lra. }
  rewrite Hf.
  destruct (Rgt_dec _ _) as [_ | Hn].
  - rewrite normalize_nonzero by (unfold magSquared; simpl; lra).
    rewrite (magnitude_of_square _ 5) by (unfold magSquared; simpl; lra).
    apply vector_eq; unfold maxAirSpeed; simpl; lra.
  - exfalso. apply Hn. rewrite maxAirSpeedSq_value.
    unfold magSquared. simpl. lra.
Qed.

(** The floor on Y followed by the speed cap: (1.2, -3.02) is integrated,
    floored to (1.2, -0.5), of magnitude 1.3, and rescaled: the Y component
    moves from -0.5 to -4/13. *)
Example calcVelocity_floored_then_capped :
  Craft_calcVelocity World_new (flying (create 1.2 (-3)) zero)
    = create (48 / 65) (- 4 / 13).
Proof.
  rewrite calcVelocity_unfold.
  assert (Hf : floorY (integrated World_new (flying (create 1.2 (-3)) zero))
               = create 1.2 (-0.5)).
  { unfold floorY, integrated, maxDownSpeed. simpl.
    destruct (Rlt_dec _ _) as [_ | Hn]; [| exfalso; lra].
    apply vector_eq; simpl; lra. }
  rewrite Hf.
  destruct (Rgt_dec _ _) as [_ | Hn].
  - rewrite normalize_nonzero by (unfold magSquared; simpl; lra).
    rewrite (magnitude_of_square _ 1.3) by (unfold magSquared; simpl; lra).
    apply vector_eq; unfold maxAirSpeed; simpl; lra.
  - exfalso. apply Hn. rewrite maxAirSpeedSq_value.
    unfold magSquared. simpl. lra.
Qed.

End CraftVelocity.

(** ** Craft dynamics: the bounce off the sides *)

Section CraftBounce.

Context {M : MatrixOps}.

Lemma bounceOffSides_unfold (pos vel : Vector) :
  Craft_bounceOffSides pos vel =
    scale (normalize (rawImpulse (add pos vel))) maxAirSpeed.
Proof. reflexivity. Qed.

Lemma rescale_zero (s : R) : scale (normalize zero) s = zero.
Proof.
  rewrite normalize_zero. apply vector_eq; unfold scale, zero; simpl; ring.
Qed.

(** After normalize and rescale each component keeps its sign: it is
    the component times a positive factor. *)
Lemma rescale_factor (r : Vector) (s : R) :
  0 < magSquared r -> 0 < s ->
  exists k, 0 < k /\
    getX (scale (normalize r) s) = getX r * k /\
    getY (scale (normalize r) s) = getY r * k.
Proof.
  intros Hpos Hs. pose proof (magnitude_pos r Hpos) as Hm.
  exists (s / magnitude r). split.
  - apply Rdiv_lt_0_compat; assumption.
  - rewrite (normalize_nonzero r Hpos). simpl. split; field; lra.
Qed.

(** The raw impulse is the zero vector exactly when no bound is
    exceeded; each component opposes the overflow on its axis. *)
Lemma rawImpulse_cases (p : Vector) :
  (getX p > 76 -> getX (rawImpulse p) = - maxAirSpeed) /\
  (getX p < -76 -> getX (rawImpulse p) = maxAirSpeed) /\
  (getY p > 56 -> getY (rawImpulse p) = - maxAirSpeed) /\
  (getY p < -56 -> getY (rawImpulse p) = maxAirSpeed) /\
  (-76 <= getX p <= 76 -> -56 <= getY p <= 56 -> rawImpulse p = zero) /\
  (rawImpulse p = zero \/ 0 < magSquared (rawImpulse p)).
Proof.
  unfold rawImpulse, magSquared, setX, setY, zero, maxAirSpeed.
  destruct (Rgt_dec (getX p) 76), (Rlt_dec (getX p) (-76)),
           (Rgt_dec (getY p) 56), (Rlt_dec (getY p) (-56));
    simpl; repeat split; intros; try lra; try reflexivity;
    solve [ right; lra | left; reflexivity ].
Qed.

(** C4. For every position and velocity, with [p] the predicted
    position [pos + vel]: the impulse of [bounceOffSides] has a negative
    X component when [p] is beyond +76 and a positive one when it is
    beyond -76, a negative Y component when [p] is beyond +56 and a
    positive one when it is beyond -56; it is exactly the zero vector
    when no bound is exceeded; and whenever it is not the zero vector its
    magnitude is [maxAirSpeed]. *)
Theorem bounceOffSides_impulse (pos vel : Vector) :
  let p := add pos vel in
  let impulse := Craft_bounceOffSides pos vel in
  (getX p > 76 -> getX impulse < 0) /\
  (getX p < -76 -> getX impulse > 0) /\
  (getY p > 56 -> getY impulse < 0) /\
  (getY p < -56 -> getY impulse > 0) /\
  (-76 <= getX p <= 76 -> -56 <= getY p <= 56 -> impulse = zero) /\
  (impulse <> zero -> magnitude impulse = maxAirSpeed).
Proof.
  intros p impulse. subst impulse. rewrite bounceOffSides_unfold. fold p.
  destruct (rawImpulse_cases p) as (Hx1 & Hx2 & Hy1 & Hy2 & Hz & Hraw).
  assert (Hs : 0 < maxAirSpeed) by (unfold maxAirSpeed; lra).
  destruct Hraw as [Hzero | Hpos].
  - (* nothing exceeded: the zero guard of normalize *)
    rewrite Hzero in *. rewrite rescale_zero.
    unfold zero in Hx1, Hx2, Hy1, Hy2; simpl in *.
    repeat split; intros; try reflexivity; try congruence;
      first [ specialize (Hx1 ltac:(assumption))
            | specialize (Hx2 ltac:(assumption))
            | specialize (Hy1 ltac:(assumption))
            | specialize (Hy2 ltac:(assumption)) ]; lra.
  - destruct (rescale_factor (rawImpulse p) maxAirSpeed Hpos Hs)
      as (k & Hk & Ex & Ey).
    rewrite Ex, Ey.
    split; [| split; [| split; [| split; [| split]]]].
    + intros H. rewrite (Hx1 H). nra.
    + intros H. rewrite (Hx2 H). nra.
    + intros H. rewrite (Hy1 H). nra.
    + intros H. rewrite (Hy2 H). nra.
    + intros Hx Hy. rewrite (Hz Hx Hy). apply rescale_zero.
    + intros _. apply rescale_magnitude; [exact Hpos | lra].
Qed.

(** Predicted position (80, 0), beyond the bound +76: the impulse is
    (-0.8, 0). *)
Example bounceOffSides_right_side :
  Craft_bounceOffSides (create 79 0) (create 1 0) = create (-0.8) 0.
Proof.
  rewrite bounceOffSides_unfold.
  assert (Hr : rawImpulse (add (create 79 0) (create 1 0)) = create (-0.8) 0).
  { unfold rawImpulse, maxAirSpeed. simpl.
    destruct (Rgt_dec (79 + 1) 76) as [_ | Hn]; [| exfalso; lra].
    destruct (Rgt_dec (0 + 0) 56) as [Hgt | _]; [exfalso; lra |].
    destruct (Rlt_dec (0 + 0) (-56)) as [Hlt | _]; [exfalso; lra |].
    apply vector_eq; simpl; lra. }
  rewrite Hr.
  rewrite normalize_nonzero by (unfold magSquared; simpl; lra).
  rewrite (magnitude_of_square _ 0.8) by (unfold magSquared; simpl; lra).
  apply vector_eq; unfold maxAirSpeed; simpl; lra.
Qed.

End CraftBounce.

(** ** Arrays *)

Section ArrayFacts.

Context {A : Type}.

Lemma array_get_nat (a : Array A) (i : nat) :
  array_get a (Z.of_nat i) = match a !! i with Some slot => slot | None => None end.
Proof.
  unfold array_get.
  destruct (Z.ltb_spec (Z.of_nat i) 0) as [Hneg | _]; [lia |].
  rewrite Nat2Z.id. reflexivity.
Qed.

Lemma array_get_negative (a : Array A) (i : Z) :
  (i < 0)%Z -> array_get a i = None.
Proof.
  intros Hneg. unfold array_get.
  destruct (Z.ltb_spec i 0); [reflexivity | lia].
Qed.

Lemma array_get_nil (i : Z) : array_get (@nil (option A)) i = None.
Proof. unfold array_get. destruct (i <? 0)%Z; reflexivity. Qed.

(** Reading the slot just written. *)
Lemma array_get_set_eq (a : Array A) (i : nat) (v : A) :
  array_get (array_set a i v) (Z.of_nat i) = Some v.
Proof.
  rewrite array_get_nat. unfold array_set.
  destruct (Nat.ltb_spec i (length a)) as [Hlt | Hge].
  - rewrite list_lookup_insert_eq by exact Hlt. reflexivity.
  - rewrite lookup_app_r by exact Hge.
    rewrite lookup_app_r by (rewrite length_replicate; lia).
    rewrite length_replicate, Nat.sub_diag. reflexivity.
Qed.

(** Every other index reads as before the write. *)
Lemma array_get_set_ne (a : Array A) (i j : nat) (v : A) :
  i <> j -> array_get (array_set a i v) (Z.of_nat j) = array_get a (Z.of_nat j).
Proof.
  intros Hne. rewrite !array_get_nat. unfold array_set.
  destruct (Nat.ltb_spec i (length a)) as [Hlt | Hge].
  - rewrite list_lookup_insert_ne by exact Hne. reflexivity.
  - destruct (Nat.lt_ge_cases j (length a)) as [Hj | Hj].
    + rewrite lookup_app_l by exact Hj. reflexivity.
    + rewrite (lookup_ge_None_2 a j) by lia.
      rewrite lookup_app_r by exact Hj.
      destruct (Nat.lt_ge_cases (j - length a) (i - length a)) as [Hin | Hout].
      * rewrite lookup_app_l by (rewrite length_replicate; exact Hin).
        rewrite lookup_replicate_2 by exact Hin. reflexivity.
      * rewrite lookup_app_r by (rewrite length_replicate; exact Hout).
        rewrite length_replicate.
        destruct (j - length a - (i - length a))%nat as [| k] eqn:E; [lia |].
        reflexivity.
Qed.

Lemma array_set_length (a : Array A) (i : nat) (v : A) :
  length (array_set a i v) = Nat.max (length a) (Datatypes.S i).
Proof.
  unfold array_set. destruct (Nat.ltb_spec i (length a)) as [Hlt | Hge].
  - rewrite length_insert. lia.
  - rewrite !length_app, length_replicate. simpl. lia.
Qed.

End ArrayFacts.

(** ** Shape: update and render *)

Section ShapeFacts.

Context {M : MatrixOps}.

Lemma Shape_update_body_Ok (w : World) (s : Shape) (pts : list Vector)
      (i : nat) (p : Vector) :
  points s = Some pts -> pts !! i = Some p ->
  Shape_update_body w i s =
    Ok (set_renderPoints s (array_set (renderPoints s) i (screenPoint w s p))).
Proof.
  intros Hpts Hp. unfold Shape_update_body. rewrite Hpts. simpl.
  rewrite Hp. reflexivity.
Qed.

(** One iteration of the loop, at an index inside [points], and the
    iteration that throws, at the first index outside. *)
Ltac loop_iteration Hpts :=
  erewrite Shape_update_body_Ok; [| exact Hpts | reflexivity]; simpl.

Ltac loop_throws Hpts :=
  unfold Shape_update_body; simpl; rewrite Hpts; reflexivity.

(** With at least four vertices [update] returns, and has written the
    render points of the vertices 0 to 3, in this order. *)
Lemma Shape_update_Ok (w : World) (s : Shape) (pts : list Vector) :
  points s = Some pts -> (4 <= length pts)%nat ->
  exists p0 p1 p2 p3 rest,
    pts = p0 :: p1 :: p2 :: p3 :: rest /\
    Shape_update w s =
      Ok (set_renderPoints s
            (array_set (array_set (array_set (array_set (renderPoints s)
               0 (screenPoint w s p0)) 1 (screenPoint w s p1))
               2 (screenPoint w s p2)) 3 (screenPoint w s p3))).
Proof.
  intros Hpts Hlen.
  destruct pts as [| p0 [| p1 [| p2 [| p3 rest]]]]; simpl in Hlen; try lia.
  exists p0, p1, p2, p3, rest. split; [reflexivity |].
  unfold Shape_update. simpl.
  do 4 loop_iteration Hpts. reflexivity.
Qed.

(** With fewer than four vertices [update] throws at the first index
    past the end of [points]. *)
Lemma Shape_update_Throw (w : World) (s : Shape) (pts : list Vector) :
  points s = Some pts -> (length pts < 4)%nat ->
  Shape_update w s = Throw (UndefinedVertex (length pts)).
Proof.
  intros Hpts Hlen.
  destruct pts as [| p0 [| p1 [| p2 [| p3 rest]]]]; simpl in Hlen; try lia;
    unfold Shape_update; simpl.
  - loop_throws Hpts.
  - do 1 loop_iteration Hpts. loop_throws Hpts.
  - do 2 loop_iteration Hpts. loop_throws Hpts.
  - do 3 loop_iteration Hpts. loop_throws Hpts.
Qed.

(** [update] changes the render points and nothing else. *)
Lemma Shape_update_frame (w : World) (s s' : Shape) :
  Shape_update w s = Ok s' ->
  points s' = points s /\ worldPos s' = worldPos s /\
  xform s' = xform s /\ sceneIndex s' = sceneIndex s.
Proof.
  intros Hup. destruct (points s) as [pts |] eqn:Hpts.
  - destruct (Nat.lt_ge_cases (length pts) 4) as [Hlt | Hge].
    + rewrite (Shape_update_Throw w s pts Hpts Hlt) in Hup. discriminate.
    + destruct (Shape_update_Ok w s pts Hpts Hge)
        as (p0 & p1 & p2 & p3 & rest & _ & E).
      rewrite E in Hup. injection Hup as <-. simpl. rewrite Hpts. auto.
  - unfold Shape_update, Shape_update_body in Hup. simpl in Hup.
    rewrite Hpts in Hup. discriminate.
Qed.

End ShapeFacts.

Section RenderFacts.

Context {M : MatrixOps}.

Lemma Shape_drawLine_Ok_inv (s : Shape) (f t : Z) (l : DrawLine) :
  Shape_drawLine s f t = Ok l -> written s f /\ written s t.
Proof.
  unfold Shape_drawLine, written.
  destruct (array_get (renderPoints s) f) as [pf |]; simpl; [| discriminate].
  destruct (array_get (renderPoints s) t) as [pt |]; simpl; [| discriminate].
  intros _. split; eexists; reflexivity.
Qed.

Lemma Shape_drawLine_written (s : Shape) (f t : Z) :
  written s f -> written s t -> exists l, Shape_drawLine s f t = Ok l.
Proof.
  intros [pf Hf] [pt Ht]. unfold Shape_drawLine. rewrite Hf, Ht. simpl.
  eexists; reflexivity.
Qed.

(** The first read of [drawLine] is the render point at [f]. *)
Lemma Shape_drawLine_unwritten (s : Shape) (f t : Z) :
  array_get (renderPoints s) f = None ->
  Shape_drawLine s f t = Throw (UndefinedRenderPoint f).
Proof. intros Hf. unfold Shape_drawLine. rewrite Hf. reflexivity. Qed.

Lemma Shape_render_loop_Ok_inv (s : Shape) (n : nat) :
  forall (start : nat) (ls : list DrawLine),
    Shape_render_loop s n start = Ok ls ->
    forall j : nat, (start <= j < start + n)%nat -> written s (Z.of_nat j).
Proof.
  induction n as [| n IH]; intros start ls Hloop j Hj; [lia |].
  simpl in Hloop.
  destruct (Shape_drawLine s (Z.of_nat start) (Z.of_nat start + 1))
    as [l |] eqn:Hline; simpl in Hloop; [| discriminate].
  destruct (Shape_render_loop s n (S start)) as [ls' |] eqn:Hrest;
    simpl in Hloop; [| discriminate].
  destruct (Nat.eq_dec j start) as [-> | Hne].
  - apply (Shape_drawLine_Ok_inv _ _ _ _ Hline).
  - apply (IH (S start) ls' Hrest). lia.
Qed.

Lemma Shape_render_loop_written (s : Shape) (n : nat) :
  forall start : nat,
    (forall j : nat, (start <= j <= start + n)%nat -> written s (Z.of_nat j)) ->
    exists ls, Shape_render_loop s n start = Ok ls /\ length ls = n.
Proof.
  induction n as [| n IH]; intros start Hw.
  - exists []. split; reflexivity.
  - simpl.
    destruct (Shape_drawLine_written s (Z.of_nat start) (Z.of_nat start + 1))
      as [l Hl].
    + apply Hw. lia.
    + replace (Z.of_nat start + 1)%Z with (Z.of_nat (S start)) by lia.
      apply Hw. lia.
    + rewrite Hl. simpl.
      destruct (IH (S start)) as (ls & Hls & Hlen).
      { intros j Hj. apply Hw. lia. }
      rewrite Hls. simpl. exists (l :: ls). split; [reflexivity |].
      simpl. rewrite Hlen. reflexivity.
Qed.

(** [render] returns only if every render point from index 0 to
    [points.length - 1] has been written. *)
Lemma Shape_render_Ok_inv (s : Shape) (pts : list Vector) (ls : list DrawLine) :
  points s = Some pts -> Shape_render s = Ok ls ->
  pts <> [] /\
  forall i : nat, (i < length pts)%nat -> written s (Z.of_nat i).
Proof.
  intros Hpts Hr. unfold Shape_render in Hr. rewrite Hpts in Hr. simpl in Hr.
  destruct (Shape_render_loop s (Z.to_nat (Z.of_nat (length pts) - 1)) 0)
    as [ls' |] eqn:Hloop; simpl in Hr; [| discriminate].
  destruct (Shape_drawLine s (Z.of_nat (length pts) - 1) 0) as [l |] eqn:Hlast;
    simpl in Hr; [| discriminate].
  destruct (Shape_drawLine_Ok_inv _ _ _ _ Hlast) as [[v Hv] _].
  assert (Hne : pts <> []).
  { intros ->. simpl in Hv. rewrite array_get_negative in Hv by lia.
    discriminate. }
  split; [exact Hne |].
  intros i Hi.
  destruct (Nat.eq_dec i (length pts - 1)%nat) as [-> | Hlt].
  - exists v. rewrite <- Hv. f_equal. destruct pts; [contradiction |].
    simpl length. lia.
  - apply (Shape_render_loop_Ok_inv s _ 0 ls' Hloop). lia.
Qed.

(** Conversely [render] returns, with one line per vertex, once they
    all have been written. *)
Lemma Shape_render_written (s : Shape) (pts : list Vector) :
  points s = Some pts -> pts <> [] ->
  (forall i : nat, (i < length pts)%nat -> written s (Z.of_nat i)) ->
  exists ls, Shape_render s = Ok ls /\ length ls = length pts.
Proof.
  intros Hpts Hne Hw. unfold Shape_render. rewrite Hpts. simpl.
  assert (Hlen : (0 < length pts)%nat).
  { destruct pts; [contradiction | simpl; lia]. }
  destruct (Shape_render_loop_written s (Z.to_nat (Z.of_nat (length pts) - 1)) 0)
    as (ls & Hls & Hn).
  { intros j Hj. apply Hw. lia. }
  rewrite Hls. simpl.
  destruct (Shape_drawLine_written s (Z.of_nat (length pts) - 1) 0) as [l Hl].
  - replace (Z.of_nat (length pts) - 1)%Z with (Z.of_nat (length pts - 1)) by lia.
    apply Hw. lia.
  - apply (Hw 0%nat). exact Hlen.
  - rewrite Hl. simpl. exists (ls ++ [l]). split; [reflexivity |].
    rewrite length_app, Hn. simpl. lia.
Qed.

(** With an empty cache [render] throws at its first read of a render
    point: index 0, or index -1 when the shape has no vertex. *)
Lemma Shape_render_empty_cache (s : Shape) (pts : list Vector) :
  points s = Some pts -> renderPoints s = [] ->
  Shape_render s =
    Throw (UndefinedRenderPoint (if decide (pts = []) then -1 else 0)).
Proof.
  intros Hpts Hrp.
  assert (Hnone : forall i, array_get (renderPoints s) i = None).
  { intros i. rewrite Hrp. apply array_get_nil. }
  unfold Shape_render. rewrite Hpts. cbn [orThrow bind].
  destruct pts as [| p [| q rest]].
  - change (Z.to_nat (Z.of_nat (length (@nil Vector)) - 1)) with 0%nat.
    cbn [Shape_render_loop bind].
    rewrite Shape_drawLine_unwritten by apply Hnone. reflexivity.
  - change (Z.to_nat (Z.of_nat (length [p]) - 1)) with 0%nat.
    cbn [Shape_render_loop bind].
    rewrite Shape_drawLine_unwritten by apply Hnone. reflexivity.
  - replace (Z.to_nat (Z.of_nat (length (p :: q :: rest)) - 1))
      with (S (length rest)) by (simpl length; lia).
    cbn [Shape_render_loop bind].
    rewrite Shape_drawLine_unwritten by apply Hnone. reflexivity.
Qed.

(** After [update] a shape of four vertices is rendered without a
    throw, as four lines. *)
Lemma Shape_render_after_update (w : World) (s s' : Shape) (pts : list Vector) :
  points s = Some pts -> length pts = 4%nat ->
  Shape_update w s = Ok s' ->
  exists ls, Shape_render s' = Ok ls /\ length ls = 4%nat.
Proof.
  intros Hpts Hlen Hup.
  destruct (Shape_update_Ok w s pts Hpts) as (p0 & p1 & p2 & p3 & rest & _ & E);
    [lia |].
  rewrite E in Hup. injection Hup as <-.
  rewrite <- Hlen. apply Shape_render_written.
  - exact Hpts.
  - intros ->. discriminate Hlen.
  - intros i Hi. rewrite Hlen in Hi. unfold written. simpl renderPoints.
    destruct i as [| [| [| [| i]]]]; [| | | | lia].
    + rewrite !array_get_set_ne by lia. rewrite array_get_set_eq. eauto.
    + rewrite !array_get_set_ne by lia. rewrite array_get_set_eq. eauto.
    + rewrite !array_get_set_ne by lia. rewrite array_get_set_eq. eauto.
    + rewrite array_get_set_eq. eauto.
Qed.

End RenderFacts.

(** ** World: the collection and the scene indices *)

Section WorldFacts.

Context {M : MatrixOps}.

Lemma insertAt_length {A} (a : list A) (v : A) :
  insertAt a (Z.of_nat (length a)) v = a ++ [v].
Proof.
  unfold insertAt.
  destruct (Z.ltb_spec (Z.of_nat (length a)) 0) as [Hneg | _]; [lia |].
  rewrite Z.min_id, Nat2Z.id, take_ge, drop_ge by lia. reflexivity.
Qed.

Lemma removeAt_last {A} (a : list A) (v : A) :
  removeAt (a ++ [v]) (Z.of_nat (length a)) = a.
Proof.
  unfold removeAt. rewrite length_app. simpl.
  destruct (Z.leb_spec 0 (Z.of_nat (length a))) as [_ | Hneg]; [| lia].
  destruct (Z.ltb_spec (Z.of_nat (length a)) (Z.of_nat (length a + 1)))
    as [_ | Hge]; [| lia].
  simpl. rewrite Nat2Z.id.
  rewrite take_app_length, drop_ge by (rewrite length_app; simpl; lia).
  apply app_nil_r.
Qed.

Lemma store_set_eq (st : Store) (r : ref) (o : Obj) : store_set st r o r = o.
Proof. unfold store_set. rewrite Nat.eqb_refl. reflexivity. Qed.

Lemma store_set_ne (st : Store) (r r' : ref) (o : Obj) :
  r' <> r -> store_set st r o r' = st r'.
Proof.
  intros Hne. unfold store_set.
  destruct (Nat.eqb_spec r' r); [contradiction | reflexivity].
Qed.

Lemma obj_set_sceneIndex_get (o : Obj) (i : Z) :
  sceneIndex (obj_shape (obj_set_sceneIndex o i)) = i.
Proof. destruct o; reflexivity. Qed.

(** [add] appends the shape and records its position in it. *)
Lemma World_add_spec (s : ref) (w : World) (st : Store) :
  shapes (fst (World_add s w st)) = shapes w ++ [s] /\
  sceneIndex (obj_shape (snd (World_add s w st) s)) = Z.of_nat (length (shapes w)) /\
  forall r, r <> s -> snd (World_add s w st) r = st r.
Proof.
  unfold World_add. simpl. rewrite store_set_eq, obj_set_sceneIndex_get.
  split; [apply insertAt_length |]. split; [reflexivity |].
  intros r Hne. apply store_set_ne, Hne.
Qed.

(** [add] keeps the invariant, for a shape that is not yet in the
    collection. *)
Lemma World_add_indexed (s : ref) (w : World) (st : Store) :
  indexed w st -> ~ In s (shapes w) ->
  indexed (fst (World_add s w st)) (snd (World_add s w st)).
Proof.
  intros Hinv Hnew i r Hi.
  destruct (World_add_spec s w st) as (Hshapes & Hidx & Hother).
  rewrite Hshapes in Hi.
  destruct (Nat.lt_ge_cases i (length (shapes w))) as [Hlt | Hge].
  - rewrite lookup_app_l in Hi by exact Hlt.
    assert (Hne : r <> s).
    { intros ->. apply Hnew. apply list_elem_of_In.
      apply list_elem_of_lookup. exists i. exact Hi. }
    rewrite (Hother r Hne). apply Hinv, Hi.
  - rewrite lookup_app_r in Hi by exact Hge.
    destruct (i - length (shapes w))%nat as [| k] eqn:E; simpl in Hi.
    + injection Hi as <-. rewrite Hidx. f_equal. lia.
    + discriminate.
Qed.

(** [remove] takes out the element at the recorded index, marks the
    removed shape with -1 and writes to no other shape. *)
Lemma World_remove_spec (s : ref) (w : World) (st : Store) :
  shapes (fst (World_remove s w st)) =
    removeAt (shapes w) (sceneIndex (obj_shape (st s))) /\
  sceneIndex (obj_shape (snd (World_remove s w st) s)) = (-1)%Z /\
  forall r, r <> s -> snd (World_remove s w st) r = st r.
Proof.
  unfold World_remove. simpl. rewrite store_set_eq, obj_set_sceneIndex_get.
  split; [reflexivity |]. split; [reflexivity |].
  intros r Hne. apply store_set_ne, Hne.
Qed.

(** What [remove] leaves behind in a world that satisfies the invariant:
    the shapes before the removed one keep their position as scene index,
    and every shape after it keeps its old position, one more than its
    new one. *)
Lemma World_remove_indices (s : ref) (w : World) (st : Store) (i : nat) :
  indexed w st -> shapes w !! i = Some s ->
  forall (j : nat) (r : ref),
    shapes (fst (World_remove s w st)) !! j = Some r ->
    sceneIndex (obj_shape (snd (World_remove s w st) r)) =
      Z.of_nat (if (j <? i)%nat then j else S j).
Proof.
  intros Hinv Hs j r Hj.
  destruct (World_remove_spec s w st) as (Hshapes & _ & Hother).
  rewrite Hshapes, (Hinv i s Hs) in Hj.
  pose proof (lookup_lt_Some _ _ _ Hs) as Hi.
  unfold removeAt in Hj.
  destruct (Z.leb_spec 0 (Z.of_nat i)) as [_ | Hneg]; [| lia].
  destruct (Z.ltb_spec (Z.of_nat i) (Z.of_nat (length (shapes w))))
    as [_ | Hge]; [| lia].
  simpl in Hj. rewrite Nat2Z.id in Hj.
  assert (Hold : shapes w !! (if (j <? i)%nat then j else S j) = Some r).
  { destruct (Nat.ltb_spec j i) as [Hlt | Hge].
    - rewrite lookup_app_l in Hj by (rewrite length_take; lia).
      rewrite lookup_take_lt in Hj by exact Hlt. exact Hj.
    - rewrite lookup_app_r in Hj by (rewrite length_take; lia).
      rewrite length_take, lookup_drop in Hj.
      replace (S i + (j - i `min` length (shapes w)))%nat with (S j) in Hj by lia.
      exact Hj. }
  assert (Hne : r <> s).
  { intros ->. pose proof (Hinv _ _ Hold) as E. rewrite (Hinv i s Hs) in E.
    destruct (Nat.ltb_spec j i); lia. }
  rewrite (Hother r Hne). apply Hinv, Hold.
Qed.

End WorldFacts.

Section WorldClaims.

Context {M : MatrixOps}.

Local Open Scope nat_scope.

(** C5. [remove] sets the scene index of the removed shape to -1 but
    writes to no other shape, so the shapes after the removed one are not
    renumbered.  In the world of the shapes 0, 1 and 2, where every scene
    index is the position, [remove] of shape 0 leaves the collection
    [1; 2] with the scene indices 1 and 2: the invariant is lost, and a
    following [remove] of shape 1 takes shape 2 out of the collection. *)
Theorem World_remove_no_renumbering :
  (forall (s : ref) (w : World) (st : Store),
     sceneIndex (obj_shape (snd (World_remove s w st) s)) = (-1)%Z /\
     forall r, r <> s -> snd (World_remove s w st) r = st r) /\
  indexed (fst threeShapes) (snd threeShapes) /\
  let after := World_remove 0 (fst threeShapes) (snd threeShapes) in
  shapes (fst after) = [1; 2] /\
  sceneIndex (obj_shape (snd after 0)) = (-1)%Z /\
  sceneIndex (obj_shape (snd after 1)) = 1%Z /\
  sceneIndex (obj_shape (snd after 2)) = 2%Z /\
  ~ indexed (fst after) (snd after) /\
  shapes (fst (World_remove 1 (fst after) (snd after))) = [1].
Proof.
  split.
  { intros s w st. destruct (World_remove_spec s w st) as (_ & Hs & Hr).
    split; assumption. }
  split.
  { intros i r Hi. destruct i as [| [| [| i]]]; simpl in Hi;
      try discriminate; injection Hi as <-; reflexivity. }
  cbv zeta. repeat split; try reflexivity.
  intros Hinv. specialize (Hinv 0 1 eq_refl). discriminate Hinv.
Qed.

(** C6. For a shape [s] that is not in the collection, [add] of [s]
    followed by [remove] of [s] gives back the world as it was: the same
    shapes in the same order, and every shape of the collection unchanged
    in the store, its scene index included. *)
Theorem World_add_remove_restores (w : World) (st : Store) (s : ref) :
  ~ In s (shapes w) ->
  let added := World_add s w st in
  let removed := World_remove s (fst added) (snd added) in
  fst removed = w /\
  shapes (fst removed) = shapes w /\
  forall r, In r (shapes w) ->
    snd removed r = st r /\
    sceneIndex (obj_shape (snd removed r)) = sceneIndex (obj_shape (st r)).
Proof.
  intros Hnew added removed.
  destruct (World_add_spec s w st) as (Hshapes & Hidx & Hother).
  destruct (World_remove_spec s (fst added) (snd added)) as (Hrm & _ & Hother').
  fold added in Hshapes, Hidx, Hother. fold removed in Hrm, Hother'.
  assert (Hback : shapes (fst removed) = shapes w).
  { rewrite Hrm, Hshapes, Hidx. apply removeAt_last. }
  split; [| split; [exact Hback |]].
  - destruct w as [g t l]. simpl in *.
    change (fst removed) with
      (mkWorld g t (removeAt (shapes (fst added))
                             (sceneIndex (obj_shape (snd added s))))).
    f_equal. rewrite Hshapes, Hidx. apply removeAt_last.
  - intros r Hr.
    assert (Hne : r <> s) by (intros ->; contradiction).
    assert (E : snd removed r = st r).
    { rewrite (Hother' r Hne). apply Hother, Hne. }
    split; [exact E | rewrite E; reflexivity].
Qed.

End WorldClaims.

(** A world of two shapes, and a third shape that is not in it. *)
Lemma World_add_remove_restores_witness :
  let r0 := World_add 0%nat (World_new (M := AffineOps)) freshStore in
  let r1 := World_add 1%nat (fst r0) (snd r0) in
  let r2 := World_add 2%nat (fst r1) (snd r1) in
  shapes (fst r1) = [0; 1]%nat /\
  shapes (fst (World_remove 2%nat (fst r2) (snd r2))) = [0; 1]%nat.
Proof.
  intros r0 r1 r2. split; [reflexivity |].
  refine (proj1 (proj2 (World_add_remove_restores (fst r1) (snd r1) 2%nat _))).
  simpl. intros [H | [H | H]]; [discriminate H | discriminate H | exact H].
Defined.

(** ** Shape: which vertices [update] processes *)

Section ShapeClaims.

Context {M : MatrixOps}.

(** C3. [update] runs its loop four times whatever the number of
    vertices.  On a shape of five vertices it stores the screen points of
    the vertices 0 to 3 and none for vertex 4, and the [render] that
    follows throws at the render point of index 4. *)
Theorem Shape_update_first_four_only (w : World) :
  Shape_update w pentagon =
    Ok (set_renderPoints pentagon
          [Some (screenPoint w pentagon (create 0 8));
           Some (screenPoint w pentagon (create 4 0));
           Some (screenPoint w pentagon (create 2 (-4)));
           Some (screenPoint w pentagon (create (-2) (-4)))]) /\
  (forall s', Shape_update w pentagon = Ok s' ->
     length (renderPoints s') = 4%nat /\
     array_get (renderPoints s') 4 = None /\
     Shape_render s' = Throw (UndefinedRenderPoint 4)).
Proof.
  assert (E : Shape_update w pentagon =
    Ok (set_renderPoints pentagon
          [Some (screenPoint w pentagon (create 0 8));
           Some (screenPoint w pentagon (create 4 0));
           Some (screenPoint w pentagon (create 2 (-4)));
           Some (screenPoint w pentagon (create (-2) (-4)))])) by reflexivity.
  split; [exact E |].
  intros s' Hs'. rewrite E in Hs'. injection Hs' as <-.
  repeat split; reflexivity.
Qed.

(** C10. The constructors leave the render-point cache empty, and of
    the methods that change a shape only [update] writes to it.  [render]
    returns only if the render points of all indices from 0 to
    [points.length - 1] have been written, and after one [update] a shape
    of four vertices is rendered without a throw.  With the cache still
    empty [render] always throws: on a shape whose [points] are assigned
    (every craft) at its first read of a render point, index 0, or index -1
    when there is no vertex; on a shape whose [points] were never assigned
    (a bare [Shape], as its constructor leaves it) already at
    [points.length], before any render point is read. *)
Theorem Shape_render_before_update (s : Shape) :
  renderPoints s = [] ->
  (renderPoints Shape_new = [] /\ renderPoints (shape Craft_new) = []) /\
  ((forall ctl c, renderPoints (shape (Craft_handleInput ctl c)) = renderPoints (shape c)) /\
   (forall c, renderPoints (shape (fst (Craft_updateEffects c))) = renderPoints (shape c)) /\
   (forall o i, renderPoints (obj_shape (obj_set_sceneIndex o i)) = renderPoints (obj_shape o))) /\
  (forall s0 pts ls, points s0 = Some pts -> Shape_render s0 = Ok ls ->
     forall i : nat, (i < length pts)%nat ->
       exists v, array_get (renderPoints s0) (Z.of_nat i) = Some v) /\
  (forall w s0 s' pts, points s0 = Some pts -> length pts = 4%nat ->
     Shape_update w s0 = Ok s' ->
     exists ls, Shape_render s' = Ok ls /\ length ls = 4%nat) /\
  (exists e, Shape_render s = Throw e) /\
  (points s = None -> Shape_render s = Throw UndefinedPoints) /\
  (forall pts, points s = Some pts ->
     Shape_render s =
       Throw (UndefinedRenderPoint (if decide (pts = []) then -1 else 0))).
Proof.
  intros Hrp.
  assert (Hnone : points s = None -> Shape_render s = Throw UndefinedPoints).
  { intros Hp. unfold Shape_render. rewrite Hp. reflexivity. }
  assert (Hsome : forall pts, points s = Some pts ->
            Shape_render s =
              Throw (UndefinedRenderPoint (if decide (pts = []) then -1 else 0))).
  { intros pts Hpts. apply (Shape_render_empty_cache s pts Hpts Hrp). }
  split; [split; reflexivity |].
  split.
  { split; [| split].
    - intros ctl c. unfold Craft_handleInput.
      destruct (A_isPressed ctl); reflexivity.
    - intros c. reflexivity.
    - intros [s0 | c] i; reflexivity. }
  split.
  { intros s0 pts ls Hpts Hr i Hi.
    destruct (Shape_render_Ok_inv s0 pts ls Hpts Hr) as [_ Hw].
    apply (Hw i Hi). }
  split.
  { intros w s0 s' pts Hpts Hlen Hup.
    apply (Shape_render_after_update w s0 s' pts Hpts Hlen Hup). }
  split; [| split; [exact Hnone | exact Hsome]].
  destruct (points s) as [pts |] eqn:Hpts.
  - eexists. apply (Hsome pts eq_refl).
  - eexists. apply (Hnone eq_refl).
Qed.

End ShapeClaims.

(** The two shapes the constructors build, both with an empty cache: the
    bare shape, whose [points] are not assigned, and the shape of the
    craft, with its four vertices. *)
Lemma Shape_render_before_update_witness :
  Shape_render (Shape_new (M := AffineOps)) = Throw UndefinedPoints /\
  Shape_render (shape (Craft_new (M := AffineOps))) =
    Throw (UndefinedRenderPoint 0).
Proof.
  split.
  - exact (proj1 (proj2 (proj2 (proj2 (proj2 (proj2
      (Shape_render_before_update (Shape_new (M := AffineOps)) eq_refl))))))
      eq_refl).
  - exact (proj2 (proj2 (proj2 (proj2 (proj2 (proj2
      (Shape_render_before_update (shape (Craft_new (M := AffineOps))) eq_refl))))))
      [create 0 8; create 4 0; create 0 (-2); create (-4) 0] eq_refl).
Defined.

(** The bare shape, as [new Shape()] builds it: its cache is empty, and
    [render] throws on the unassigned [points], not on a render point: no
    render point is read. *)
Lemma Shape_render_bare_shape :
  renderPoints (Shape_new (M := AffineOps)) = [] /\
  points (Shape_new (M := AffineOps)) = None /\
  Shape_render (Shape_new (M := AffineOps)) = Throw UndefinedPoints /\
  forall k, Shape_render (Shape_new (M := AffineOps))
            <> Throw (UndefinedRenderPoint k).
Proof.
  split; [reflexivity |]. split; [reflexivity |]. split; [reflexivity |].
  intros k H. discriminate H.
Qed.

(** ** Craft: one update tick *)

Section CraftUpdate.

Context {M : MatrixOps}.

Lemma Craft_update_unfold (w : World) (ctl : Controller) (c : Craft) (s : Shape) :
  Shape_update w (shape c) = Ok s ->
  Craft_update w ctl c = Ok (afterUpdate w ctl c s).
Proof.
  intros Hs. unfold Craft_update. rewrite Hs. reflexivity.
Qed.

(** A craft with at least four vertices is updated without a throw. *)
Lemma Craft_update_Ok (w : World) (ctl : Controller) (c : Craft)
      (pts : list Vector) :
  points (shape c) = Some pts -> (4 <= length pts)%nat ->
  exists s,
    Shape_update w (shape c) = Ok s /\
    points s = Some pts /\ worldPos s = worldPos (shape c) /\
    xform s = xform (shape c) /\
    Craft_update w ctl c = Ok (afterUpdate w ctl c s).
Proof.
  intros Hpts Hlen.
  destruct (Shape_update_Ok w (shape c) pts Hpts Hlen)
    as (p0 & p1 & p2 & p3 & rest & _ & Hs).
  eexists. split; [exact Hs |].
  destruct (Shape_update_frame w _ _ Hs) as (Hp & Hw & Hx & _).
  rewrite Hp, Hpts. repeat split; try assumption.
  apply Craft_update_unfold, Hs.
Qed.

Lemma handleInput_xform (ctl : Controller) (c : Craft) :
  xform (shape (Craft_handleInput ctl c)) =
    mul (xform (shape c)) (createRotationMatrixDegrees (steerSign ctl * 1.5)).
Proof.
  unfold Craft_handleInput, steerSign. destruct (A_isPressed ctl); reflexivity.
Qed.

Lemma handleInput_shape_frame (ctl : Controller) (c : Craft) :
  points (shape (Craft_handleInput ctl c)) = points (shape c) /\
  worldPos (shape (Craft_handleInput ctl c)) = worldPos (shape c) /\
  vel (Craft_handleInput ctl c) = vel c /\
  heading (Craft_handleInput ctl c) = heading c.
Proof.
  unfold Craft_handleInput. destruct (A_isPressed ctl); repeat split.
Qed.

Lemma handleInput_thrust (ctl : Controller) (c : Craft) :
  thrust (Craft_handleInput ctl c) =
    if A_isPressed ctl then scale (heading c) 0.08 else scale (thrust c) 0.6.
Proof.
  unfold Craft_handleInput. destruct (A_isPressed ctl); reflexivity.
Qed.

(** The thrust mode after [handleInput] is the state of the button, and
    from cleared flags the edge flags tell exactly the change of mode. *)
Lemma handleInput_flags (ctl : Controller) (c : Craft) :
  beganThrusting c = false -> stoppedThrusting c = false ->
  thrusting (Craft_handleInput ctl c) = A_isPressed ctl /\
  snd (Craft_updateEffects (Craft_handleInput ctl c)) =
    edge_effect (thrusting c) (A_isPressed ctl).
Proof.
  intros Hb Hs. unfold Craft_handleInput, Craft_updateEffects,
    Craft_applyThrust, Craft_releaseThrust, edge_effect.
  destruct (A_isPressed ctl), (thrusting c) eqn:Ht; simpl;
    rewrite ?Ht, ?Hb, ?Hs; simpl; split; reflexivity.
Qed.

End CraftUpdate.

Section CraftClaims.

Context {M : MatrixOps}.

(** C7. [update] of a craft (with its four vertices or more) returns,
    and in the craft it returns the heading is the transform of that craft
    applied to the forward vector (0, 1): the transform as steered during
    this same update. *)
Theorem Craft_update_heading (w : World) (ctl : Controller) (c : Craft)
        (pts : list Vector) :
  points (shape c) = Some pts -> (4 <= length pts)%nat ->
  exists c' fx,
    Craft_update w ctl c = Ok (c', fx) /\
    heading c' = apply (xform (shape c')) (create 0 1) /\
    xform (shape c') =
      mul (xform (shape c)) (createRotationMatrixDegrees (steerSign ctl * 1.5)).
Proof.
  intros Hpts Hlen.
  destruct (Craft_update_Ok w ctl c pts Hpts Hlen) as (s & _ & _ & _ & Hx & Hup).
  exists (fst (afterUpdate w ctl c s)), (snd (afterUpdate w ctl c s)).
  split; [rewrite Hup; reflexivity |].
  split; [reflexivity |].
  change (xform (shape (fst (afterUpdate w ctl c s))))
    with (xform (shape (Craft_handleInput ctl (set_shape c s)))).
  rewrite handleInput_xform. simpl. rewrite Hx. reflexivity.
Qed.

(** One tick from cleared edge flags: the effect call is the one owed to
    the change of mode, and the flags are cleared again. *)
Lemma Craft_update_tick (w : World) (ctl : Controller) (c : Craft)
      (pts : list Vector) :
  points (shape c) = Some pts -> (4 <= length pts)%nat ->
  beganThrusting c = false -> stoppedThrusting c = false ->
  exists c',
    Craft_update w ctl c = Ok (c', edge_effect (thrusting c) (A_isPressed ctl)) /\
    points (shape c') = Some pts /\
    thrusting c' = A_isPressed ctl /\
    beganThrusting c' = false /\ stoppedThrusting c' = false.
Proof.
  intros Hpts Hlen Hb Hs.
  destruct (Craft_update_Ok w ctl c pts Hpts Hlen) as (s & _ & Hp & _ & _ & Hup).
  destruct (handleInput_flags ctl (set_shape c s) Hb Hs) as [Hmode Hfx].
  exists (fst (afterUpdate w ctl c s)). split; [| split; [| split; [| split]]].
  - rewrite Hup. unfold afterUpdate. simpl fst. rewrite Hfx. reflexivity.
  - change (points (shape (fst (afterUpdate w ctl c s))))
      with (points (shape (Craft_handleInput ctl (set_shape c s)))).
    destruct (handleInput_shape_frame ctl (set_shape c s)) as [E _].
    rewrite E. exact Hp.
  - exact Hmode.
  - reflexivity.
  - reflexivity.
Qed.

(** C8. Over any run of update ticks, from a craft whose edge flags are
    cleared (as the constructor and every update leave them), the effect
    calls of each tick are exactly those owed to the change of thrust mode
    at this tick: one start of the trail when the mode goes from COASTING
    to THRUSTING, one clearing of the particles when it goes from THRUSTING
    to COASTING, and none while the mode persists. *)
Theorem Craft_run_effects (w : World) (ctls : list Controller) :
  forall (c : Craft) (pts : list Vector),
    points (shape c) = Some pts -> (4 <= length pts)%nat ->
    beganThrusting c = false -> stoppedThrusting c = false ->
    exists c',
      Craft_run w ctls c =
        Ok (c', edge_effects (thrusting c) (map A_isPressed ctls)) /\
      beganThrusting c' = false /\ stoppedThrusting c' = false.
Proof.
  induction ctls as [| ctl rest IH]; intros c pts Hpts Hlen Hb Hs.
  - exists c. repeat split; assumption.
  - destruct (Craft_update_tick w ctl c pts Hpts Hlen Hb Hs)
      as (c1 & Hup & Hpts1 & Hmode & Hb1 & Hs1).
    destruct (IH c1 pts Hpts1 Hlen Hb1 Hs1) as (c' & Hrun & Hb' & Hs').
    exists c'. split; [| split; assumption].
    simpl. rewrite Hup. simpl. rewrite Hrun. simpl. rewrite Hmode.
    reflexivity.
Qed.

End CraftClaims.

Section CraftScenario.

Context {M : MatrixOps}.

Lemma calcVelocity_ext (w : World) (c c' : Craft) :
  vel c = vel c' -> thrust c = thrust c' ->
  Craft_calcVelocity w c = Craft_calcVelocity w c'.
Proof. unfold Craft_calcVelocity. intros -> ->. reflexivity. Qed.

(** Without a clamp [calcVelocity] returns the integrated velocity. *)
Lemma calcVelocity_no_clamp (w : World) (c : Craft) :
  ~ getY (integrated w c) < maxDownSpeed ->
  ~ magSquared (integrated w c) > maxAirSpeedSq ->
  Craft_calcVelocity w c = integrated w c.
Proof.
  intros Hy Hm. rewrite calcVelocity_unfold. unfold floorY.
  destruct (Rlt_dec (getY (integrated w c)) maxDownSpeed); [contradiction |].
  destruct (Rgt_dec (magSquared (integrated w c)) maxAirSpeedSq);
    [contradiction | reflexivity].
Qed.

(** Inside the bounds there is no bounce. *)
Lemma bounceOffSides_inside (pos v : Vector) :
  -76 <= getX (add pos v) <= 76 -> -56 <= getY (add pos v) <= 56 ->
  Craft_bounceOffSides pos v = zero.
Proof.
  intros Hx Hy. rewrite bounceOffSides_unfold.
  destruct (rawImpulse_cases (add pos v)) as (_ & _ & _ & _ & Hz & _).
  rewrite (Hz Hx Hy). apply rescale_zero.
Qed.

(** C9. A craft at position (0, 0) with heading (0, 1) and velocity
    (0, 0), the thrust button held, under gravity (0, -0.02): the thrust is
    (0, 0.08), the integrated velocity is (0, 0.06), neither the floor on Y
    nor the speed cap fires, there is no bounce, and [update] returns a
    craft with velocity (0, 0.06) at position (0, 0.06). *)
Theorem Craft_update_thrust_tick (w : World) (ctl : Controller) (c : Craft)
        (pts : list Vector) :
  points (shape c) = Some pts -> (4 <= length pts)%nat ->
  gravity w = create 0 (-0.02) ->
  worldPos (shape c) = create 0 0 ->
  heading c = create 0 1 ->
  vel c = create 0 0 ->
  A_isPressed ctl = true ->
  let c1 := Craft_handleInput ctl c in
  thrust c1 = create 0 0.08 /\
  integrated w c1 = create 0 0.06 /\
  ~ getY (integrated w c1) < maxDownSpeed /\
  ~ magSquared (integrated w c1) > maxAirSpeedSq /\
  Craft_calcVelocity w c1 = create 0 0.06 /\
  Craft_bounceOffSides (worldPos (shape c1)) (Craft_calcVelocity w c1) = zero /\
  exists c' fx,
    Craft_update w ctl c = Ok (c', fx) /\
    vel c' = create 0 0.06 /\
    worldPos (shape c') = create 0 0.06.
Proof.
  intros Hpts Hlen Hg Hpos Hhead Hvel HA c1.
  destruct (handleInput_shape_frame ctl c) as (_ & Hpos1 & Hvel1 & _).
  fold c1 in Hpos1, Hvel1.
  assert (Hthrust : thrust c1 = create 0 0.08).
  { unfold c1. rewrite handleInput_thrust, HA, Hhead.
    apply vector_eq; simpl; lra. }
  assert (Hint : integrated w c1 = create 0 0.06).
  { unfold integrated. rewrite Hvel1, Hvel, Hthrust, Hg.
    apply vector_eq; simpl; lra. }
  assert (Hfloor : ~ getY (integrated w c1) < maxDownSpeed).
  { rewrite Hint. unfold maxDownSpeed. simpl. lra. }
  assert (Hcap : ~ magSquared (integrated w c1) > maxAirSpeedSq).
  { rewrite Hint, maxAirSpeedSq_value. unfold magSquared. simpl. lra. }
  assert (Hcalc : Craft_calcVelocity w c1 = create 0 0.06).
  { rewrite (calcVelocity_no_clamp w c1 Hfloor Hcap). exact Hint. }
  assert (Hbounce : Craft_bounceOffSides (create 0 0) (create 0 0.06) = zero).
  { apply bounceOffSides_inside; simpl; lra. }
  repeat (split; [assumption |]).
  split; [rewrite Hcalc, Hpos1, Hpos; exact Hbounce |].
  destruct (Craft_update_Ok w ctl c pts Hpts Hlen) as (s & _ & _ & Hws & _ & Hup).
  set (c2 := Craft_handleInput ctl (set_shape c s)).
  assert (Hcalc2 : Craft_calcVelocity w c2 = create 0 0.06).
  { rewrite <- Hcalc. apply calcVelocity_ext.
    - destruct (handleInput_shape_frame ctl (set_shape c s)) as (_ & _ & E & _).
      fold c2 in E. rewrite E, Hvel1. reflexivity.
    - unfold c2, c1. rewrite !handleInput_thrust. reflexivity. }
  assert (Hpos2 : worldPos (shape c2) = create 0 0).
  { destruct (handleInput_shape_frame ctl (set_shape c s)) as (_ & E & _).
    fold c2 in E. rewrite E. simpl. rewrite Hws. exact Hpos. }
  exists (fst (afterUpdate w ctl c s)), (snd (afterUpdate w ctl c s)).
  split; [rewrite Hup; destruct (afterUpdate w ctl c s); reflexivity |].
  unfold afterUpdate. fold c2. cbn [fst vel shape worldPos set_worldPos].
  rewrite Hcalc2, Hpos2, Hbounce.
  split; apply vector_eq; simpl; lra.
Qed.

End CraftScenario.

(** The craft as constructed, with no button pressed. *)
Lemma Craft_update_heading_witness :
  exists c' fx,
    Craft_update (M := AffineOps) World_new (mkController false false false)
                 Craft_new = Ok (c', fx) /\
    heading c' = apply (xform (shape c')) (create 0 1).
Proof.
  destruct (Craft_update_heading (M := AffineOps) World_new
              (mkController false false false) Craft_new
              [create 0 8; create 4 0; create 0 (-2); create (-4) 0]
              eq_refl (le_n 4))
    as (c' & fx & Hup & Hhead & _).
  exists c', fx. split; assumption.
Defined.

(** The craft as constructed, over five ticks: the button is pressed for
    two ticks, released for two, and pressed again. *)
Lemma Craft_run_effects_witness :
  exists c',
    Craft_run (M := AffineOps) World_new
      [mkController true false false; mkController true false false;
       mkController false false false; mkController false false false;
       mkController true false false]
      Craft_new
    = Ok (c', [[StartTrail]; []; [ClearParticles]; []; [StartTrail]]).
Proof.
  destruct (Craft_run_effects (M := AffineOps) World_new
              [mkController true false false; mkController true false false;
               mkController false false false; mkController false false false;
               mkController true false false]
              Craft_new
              [create 0 8; create 4 0; create 0 (-2); create (-4) 0]
              eq_refl (le_n 4) eq_refl eq_refl)
    as (c' & Hrun & _).
  exists c'. exact Hrun.
Defined.

(** The craft as constructed, in the world as constructed, with the
    thrust button held. *)
Lemma Craft_update_thrust_tick_witness :
  exists c' fx,
    Craft_update (M := AffineOps) World_new (mkController true false false)
                 Craft_new = Ok (c', fx) /\
    vel c' = create 0 0.06 /\
    worldPos (shape c') = create 0 0.06.
Proof.
  exact (proj2 (proj2 (proj2 (proj2 (proj2 (proj2
    (Craft_update_thrust_tick (M := AffineOps) World_new
       (mkController true false false) Craft_new
       [create 0 8; create 4 0; create 0 (-2); create (-4) 0]
       eq_refl (le_n 4) eq_refl eq_refl eq_refl eq_refl eq_refl))))))).
Defined.

(** * Further properties of the program *)

(** ** Shape.update *)

Section ShapeUpdateMore.

Context {M : MatrixOps}.

(** Writing to a slot the value it already holds changes nothing. *)
Lemma array_set_same {A} (a : Array A) (i : nat) (v : A) :
  array_get a (Z.of_nat i) = Some v -> array_set a i v = a.
Proof.
  rewrite array_get_nat. intros Hget. unfold array_set.
  destruct (a !! i) as [slot |] eqn:Hi; [| discriminate]. subst slot.
  pose proof (lookup_lt_Some _ _ _ Hi) as Hlt.
  destruct (Nat.ltb_spec i (length a)) as [_ | Hge]; [| lia].
  apply list_insert_id, Hi.
Qed.

(** The cache after the four writes of [update]. *)
Lemma four_writes_get (rp : Array Vector) (v0 v1 v2 v3 : Vector) :
  let rp' := array_set (array_set (array_set (array_set rp 0 v0) 1 v1) 2 v2) 3 v3 in
  array_get rp' 0 = Some v0 /\ array_get rp' 1 = Some v1 /\
  array_get rp' 2 = Some v2 /\ array_get rp' 3 = Some v3 /\
  (forall j : nat, (4 <= j)%nat -> array_get rp' (Z.of_nat j) = array_get rp (Z.of_nat j)) /\
  length rp' = Nat.max (length rp) 4.
Proof.
  intros rp'. subst rp'.
  split; [| split; [| split; [| split; [| split]]]].
  - change 0%Z with (Z.of_nat 0).
    rewrite !array_get_set_ne by lia. apply array_get_set_eq.
  - change 1%Z with (Z.of_nat 1).
    rewrite !array_get_set_ne by lia. apply array_get_set_eq.
  - change 2%Z with (Z.of_nat 2).
    rewrite !array_get_set_ne by lia. apply array_get_set_eq.
  - change 3%Z with (Z.of_nat 3). apply array_get_set_eq.
  - intros j Hj. rewrite !array_get_set_ne by lia. reflexivity.
  - rewrite !array_set_length. lia.
Qed.

Lemma Shape_update_unassigned (w : World) (s : Shape) :
  points s = None -> Shape_update w s = Throw UndefinedPoints.
Proof.
  intros Hp. unfold Shape_update, Shape_update_body. simpl.
  rewrite Hp. reflexivity.
Qed.

Lemma Shape_update_Ok_inv (w : World) (s s' : Shape) :
  Shape_update w s = Ok s' ->
  exists pts, points s = Some pts /\ (4 <= length pts)%nat.
Proof.
  intros Hs'. destruct (points s) as [pts |] eqn:Hpts.
  - exists pts. split; [reflexivity |].
    destruct (Nat.lt_ge_cases (length pts) 4) as [Hlt | Hge]; [| exact Hge].
    rewrite (Shape_update_Throw w s pts Hpts Hlt) in Hs'. discriminate.
  - rewrite (Shape_update_unassigned w s Hpts) in Hs'. discriminate.
Qed.

(** X1. [update] returns exactly for the shapes of at least four vertices:
    it throws on a shape whose [points] were never assigned, and on a shape
    of fewer than four vertices at the first index past its last vertex. *)
Theorem Shape_update_returns_iff (w : World) (s : Shape) :
  (points s = None -> Shape_update w s = Throw UndefinedPoints) /\
  (forall pts, points s = Some pts -> (length pts < 4)%nat ->
     Shape_update w s = Throw (UndefinedVertex (length pts))) /\
  ((exists s', Shape_update w s = Ok s') <->
   (exists pts, points s = Some pts /\ (4 <= length pts)%nat)).
Proof.
  split; [apply Shape_update_unassigned |].
  split; [apply Shape_update_Throw |].
  split.
  - intros [s' Hs']. apply (Shape_update_Ok_inv w s s' Hs').
  - intros (pts & Hpts & Hlen).
    destruct (Shape_update_Ok w s pts Hpts Hlen) as (p0 & p1 & p2 & p3 & rest & _ & E).
    eexists. exact E.
Qed.

(** X2. What [update] leaves in the cache: the render points 0 to 3 are the
    screen points of the vertices 0 to 3, every slot from index 4 on is
    as it was, the cache has grown to four slots if it was shorter, and no
    other field of the shape has changed. *)
Theorem Shape_update_render_points (w : World) (s s' : Shape) (pts : list Vector) :
  points s = Some pts -> Shape_update w s = Ok s' ->
  (forall (i : nat) (p : Vector), (i < 4)%nat -> pts !! i = Some p ->
     array_get (renderPoints s') (Z.of_nat i) = Some (screenPoint w s p)) /\
  (forall j : nat, (4 <= j)%nat ->
     array_get (renderPoints s') (Z.of_nat j) = array_get (renderPoints s) (Z.of_nat j)) /\
  length (renderPoints s') = Nat.max (length (renderPoints s)) 4 /\
  points s' = points s /\ worldPos s' = worldPos s /\
  xform s' = xform s /\ sceneIndex s' = sceneIndex s.
Proof.
  intros Hpts Hup.
  destruct (Nat.lt_ge_cases (length pts) 4) as [Hlt | Hge].
  { rewrite (Shape_update_Throw w s pts Hpts Hlt) in Hup. discriminate. }
  destruct (Shape_update_Ok w s pts Hpts Hge) as (p0 & p1 & p2 & p3 & rest & -> & E).
  rewrite E in Hup. injection Hup as <-. simpl renderPoints.
  destruct (four_writes_get (renderPoints s) (screenPoint w s p0)
              (screenPoint w s p1) (screenPoint w s p2) (screenPoint w s p3))
    as (H0 & H1 & H2 & H3 & Hrest & Hlen).
  split; [| split; [exact Hrest | split; [exact Hlen |]]].
  - intros i p Hi Hp.
    destruct i as [| [| [| [| i]]]]; [| | | | lia];
      simpl in Hp; injection Hp as <-; assumption.
  - simpl. auto.
Qed.

(** X3. A second [update] of an unchanged shape changes nothing. *)
Theorem Shape_update_idempotent (w : World) (s s' : Shape) :
  Shape_update w s = Ok s' -> Shape_update w s' = Ok s'.
Proof.
  intros Hup.
  destruct (Shape_update_Ok_inv w s s' Hup) as (pts & Hpts & Hlen).
  destruct (Shape_update_Ok w s pts Hpts Hlen)
    as (p0 & p1 & p2 & p3 & rest & Hp & E).
  rewrite E in Hup. injection Hup as <-.
  set (rp' := array_set (array_set (array_set (array_set (renderPoints s)
                 0 (screenPoint w s p0)) 1 (screenPoint w s p1))
                 2 (screenPoint w s p2)) 3 (screenPoint w s p3)).
  destruct (four_writes_get (renderPoints s) (screenPoint w s p0)
              (screenPoint w s p1) (screenPoint w s p2) (screenPoint w s p3))
    as (H0 & H1 & H2 & H3 & _ & _). fold rp' in H0, H1, H2, H3.
  destruct (Shape_update_Ok w (set_renderPoints s rp') pts Hpts Hlen)
    as (q0 & q1 & q2 & q3 & rest' & Hq & E').
  rewrite Hp in Hq. injection Hq as <- <- <- <- _.
  rewrite E'. f_equal. unfold set_renderPoints. simpl. f_equal.
  change (screenPoint w (mkShape (points s) rp' (worldPos s) (xform s) (sceneIndex s)) p0)
    with (screenPoint w s p0).
  change (screenPoint w (mkShape (points s) rp' (worldPos s) (xform s) (sceneIndex s)) p1)
    with (screenPoint w s p1).
  change (screenPoint w (mkShape (points s) rp' (worldPos s) (xform s) (sceneIndex s)) p2)
    with (screenPoint w s p2).
  change (screenPoint w (mkShape (points s) rp' (worldPos s) (xform s) (sceneIndex s)) p3)
    with (screenPoint w s p3).
  rewrite (array_set_same rp' 0 _ H0), (array_set_same rp' 1 _ H1),
          (array_set_same rp' 2 _ H2), (array_set_same rp' 3 _ H3).
  reflexivity.
Qed.

End ShapeUpdateMore.

(** ** Shape.render *)

Section ShapeRenderMore.

Context {M : MatrixOps}.

Lemma Shape_drawLine_Ok_line (s : Shape) (f t : Z) (l : DrawLine) :
  Shape_drawLine s f t = Ok l ->
  exists a b,
    array_get (renderPoints s) f = Some a /\
    array_get (renderPoints s) t = Some b /\ l = polyLine a b.
Proof.
  unfold Shape_drawLine.
  destruct (array_get (renderPoints s) f) as [a |]; simpl; [| discriminate].
  destruct (array_get (renderPoints s) t) as [b |]; simpl; [| discriminate].
  intros E. injection E as <-. exists a, b. repeat split.
Qed.

Lemma Shape_render_loop_lines (s : Shape) (n : nat) :
  forall (start : nat) (ls : list DrawLine),
    Shape_render_loop s n start = Ok ls ->
    length ls = n /\
    forall k : nat, (k < n)%nat ->
      exists a b,
        array_get (renderPoints s) (Z.of_nat (start + k)) = Some a /\
        array_get (renderPoints s) (Z.of_nat (S (start + k))) = Some b /\
        ls !! k = Some (polyLine a b).
Proof.
  induction n as [| n IH]; intros start ls Hloop.
  - simpl in Hloop. injection Hloop as <-. split; [reflexivity | lia].
  - simpl in Hloop.
    destruct (Shape_drawLine s (Z.of_nat start) (Z.of_nat start + 1))
      as [l |] eqn:Hline; simpl in Hloop; [| discriminate].
    destruct (Shape_render_loop s n (S start)) as [ls' |] eqn:Hrest;
      simpl in Hloop; [| discriminate].
    injection Hloop as <-.
    destruct (IH (S start) ls' Hrest) as [Hlen Hk].
    split; [simpl; rewrite Hlen; reflexivity |].
    intros k Hlt. destruct k as [| k].
    + destruct (Shape_drawLine_Ok_line _ _ _ _ Hline) as (a & b & Ha & Hb & ->).
      exists a, b. rewrite Nat.add_0_r.
      replace (Z.of_nat (S start)) with (Z.of_nat start + 1)%Z by lia.
      repeat split; assumption.
    + destruct (Hk k ltac:(lia)) as (a & b & Ha & Hb & Hl).
      exists a, b. replace (start + S k)%nat with (S start + k)%nat by lia.
      repeat split; assumption.
Qed.

(** X4. When [render] returns it has drawn the closed polygon of the cached
    render points: one line per vertex, line [i] from the render point [i]
    to the render point [i + 1], the last line back to the render point 0,
    all of thickness 2. *)
Theorem Shape_render_polygon (s : Shape) (pts : list Vector) (ls : list DrawLine) :
  points s = Some pts -> Shape_render s = Ok ls ->
  length ls = length pts /\
  forall i : nat, (i < length pts)%nat ->
    exists a b,
      array_get (renderPoints s) (Z.of_nat i) = Some a /\
      array_get (renderPoints s) (Z.of_nat (S i mod length pts)) = Some b /\
      ls !! i = Some (polyLine a b).
Proof.
  intros Hpts Hr.
  destruct (Shape_render_Ok_inv s pts ls Hpts Hr) as [Hne _].
  assert (Hpos : (0 < length pts)%nat).
  { destruct pts; [contradiction | simpl; lia]. }
  unfold Shape_render in Hr. rewrite Hpts in Hr. simpl in Hr.
  replace (Z.to_nat (Z.of_nat (length pts) - 1)) with (length pts - 1)%nat in Hr by lia.
  destruct (Shape_render_loop s (length pts - 1) 0) as [ls' |] eqn:Hloop;
    simpl in Hr; [| discriminate].
  destruct (Shape_drawLine s (Z.of_nat (length pts) - 1) 0) as [l |] eqn:Hlast;
    simpl in Hr; [| discriminate].
  injection Hr as <-.
  destruct (Shape_render_loop_lines s _ 0 ls' Hloop) as [Hlen Hk].
  split; [rewrite length_app, Hlen; simpl; lia |].
  intros i Hi.
  destruct (Nat.eq_dec i (length pts - 1)%nat) as [-> | Hlt].
  - destruct (Shape_drawLine_Ok_line _ _ _ _ Hlast) as (a & b & Ha & Hb & ->).
    exists a, b.
    replace (S (length pts - 1)) with (length pts) by lia.
    rewrite Nat.Div0.mod_same.
    replace (Z.of_nat (length pts - 1)) with (Z.of_nat (length pts) - 1)%Z by lia.
    repeat split; try assumption.
    rewrite lookup_app_r by lia. rewrite Hlen, Nat.sub_diag. reflexivity.
  - destruct (Hk i ltac:(lia)) as (a & b & Ha & Hb & Hl).
    exists a, b. rewrite Nat.mod_small by lia.
    repeat split; try assumption.
    rewrite lookup_app_l by lia. exact Hl.
Qed.

(** X5. For a shape with vertices [pts], [render] returns exactly when there
    is at least one vertex and the render points of all indices from 0 to
    [length pts - 1] have been written; with no vertex it throws at the
    render point of index -1, whatever the cache holds. *)
Theorem Shape_render_returns_iff (s : Shape) (pts : list Vector) :
  points s = Some pts ->
  ((exists ls, Shape_render s = Ok ls) <->
   (pts <> [] /\
    forall i : nat, (i < length pts)%nat ->
      exists v, array_get (renderPoints s) (Z.of_nat i) = Some v)) /\
  (pts = [] -> Shape_render s = Throw (UndefinedRenderPoint (-1))).
Proof.
  intros Hpts. split; [split |].
  - intros [ls Hr]. apply (Shape_render_Ok_inv s pts ls Hpts Hr).
  - intros [Hne Hw].
    destruct (Shape_render_written s pts Hpts Hne Hw) as (ls & Hr & _).
    exists ls. exact Hr.
  - intros ->. unfold Shape_render. rewrite Hpts. cbn [orThrow bind].
    change (Z.to_nat (Z.of_nat (length (@nil Vector)) - 1)) with 0%nat.
    cbn [Shape_render_loop bind].
    rewrite Shape_drawLine_unwritten; [reflexivity |].
    apply array_get_negative. simpl. lia.
Qed.

End ShapeRenderMore.

(** Witnesses, with the affine matrices. *)

Section ShapeWitnesses.

#[local] Existing Instance AffineOps.

(** The craft as constructed, after its first update: the render point
    of vertex 2. *)
Lemma Shape_update_render_points_witness :
  array_get
    (renderPoints
       (set_renderPoints (shape Craft_new)
          [Some (screenPoint World_new (shape Craft_new) (create 0 8));
           Some (screenPoint World_new (shape Craft_new) (create 4 0));
           Some (screenPoint World_new (shape Craft_new) (create 0 (-2)));
           Some (screenPoint World_new (shape Craft_new) (create (-4) 0))]))
    (Z.of_nat 2)
  = Some (screenPoint World_new (shape Craft_new) (create 0 (-2))).
Proof.
  refine (proj1 (Shape_update_render_points World_new (shape Craft_new) _
                   [create 0 8; create 4 0; create 0 (-2); create (-4) 0]
                   eq_refl eq_refl)
            2%nat (create 0 (-2)) _ eq_refl).
  lia.
Defined.

(** The shape of the craft as constructed: the second update returns
    what the first one returned. *)
Lemma Shape_update_idempotent_witness :
  exists s', Shape_update World_new (shape Craft_new) = Ok s' /\
             Shape_update World_new s' = Ok s'.
Proof.
  eexists. split; [reflexivity |].
  apply (Shape_update_idempotent World_new (shape Craft_new)). reflexivity.
Defined.

(** Four cached render points: four lines, the last one back to the
    first point. *)
Lemma Shape_render_polygon_witness :
  exists ls,
    Shape_render (rendered (create 0 0) (create 1 0) (create 1 1) (create 0 1))
      = Ok ls /\
    length ls = 4%nat /\
    ls !! 3%nat = Some (polyLine (create 0 1) (create 0 0)).
Proof.
  eexists. split; [reflexivity |].
  destruct (Shape_render_polygon
              (rendered (create 0 0) (create 1 0) (create 1 1) (create 0 1))
              [create 0 8; create 4 0; create 0 (-2); create (-4) 0]
              _ eq_refl eq_refl) as [Hlen _].
  split; [exact Hlen | reflexivity].
Defined.

(** Four vertices and four cached render points: [render] returns. *)
Lemma Shape_render_returns_iff_witness :
  exists ls,
    Shape_render (rendered (create 0 0) (create 1 0) (create 1 1) (create 0 1))
      = Ok ls.
Proof.
  apply (proj2 (proj1 (Shape_render_returns_iff
           (rendered (create 0 0) (create 1 0) (create 1 1) (create 0 1))
           [create 0 8; create 4 0; create 0 (-2); create (-4) 0] eq_refl))).
  split; [discriminate |].
  intros i Hi.
  destruct i as [| [| [| [| i]]]];
    [eexists; reflexivity .. | simpl in Hi; lia].
Defined.

End ShapeWitnesses.

(** ** Craft.calcVelocity and Craft.bounceOffSides *)

Section CraftDynamicsMore.

Context {M : MatrixOps}.

Lemma floorY_getX (v : Vector) : getX (floorY v) = getX v.
Proof. unfold floorY. destruct (Rlt_dec (getY v) maxDownSpeed); reflexivity. Qed.

Lemma calcVelocity_within_cap (w : World) (c : Craft) :
  magSquared (Craft_calcVelocity w c) <= maxAirSpeedSq.
Proof.
  rewrite calcVelocity_unfold.
  destruct (Rgt_dec (magSquared (floorY (integrated w c))) maxAirSpeedSq)
    as [Hgt | Hle]; [| lra].
  rewrite rescale_magSquared; [unfold maxAirSpeedSq; lra |].
  rewrite maxAirSpeedSq_value in Hgt. lra.
Qed.

(** X6. The speed cap is uniform: the velocity returned by [calcVelocity] is
    the floored velocity times one factor [k] for both components, with
    [0 < k <= 1], and [k < 1] exactly when the cap fires.  The floor on Y
    does not touch the X component. *)
Theorem calcVelocity_uniform_cap (w : World) (c : Craft) :
  let f := floorY (integrated w c) in
  getX f = getX (integrated w c) /\
  exists k : R,
    0 < k <= 1 /\
    Craft_calcVelocity w c = scale f k /\
    (k < 1 <-> magSquared f > maxAirSpeedSq).
Proof.
  intros f. split; [apply floorY_getX |].
  rewrite calcVelocity_unfold. fold f.
  destruct (Rgt_dec (magSquared f) maxAirSpeedSq) as [Hgt | Hle].
  - assert (Hpos : 0 < magSquared f).
    { rewrite maxAirSpeedSq_value in Hgt. lra. }
    assert (Hm : maxAirSpeed < magnitude f).
    { apply magnitude_gt; [unfold maxAirSpeed; lra | exact Hgt]. }
    assert (Hs : 0 < maxAirSpeed) by (unfold maxAirSpeed; lra).
    exists (maxAirSpeed / magnitude f).
    assert (Hk : 0 < maxAirSpeed / magnitude f < 1).
    { split.
      - apply Rdiv_lt_0_compat; lra.
      - apply (Rmult_lt_reg_r (magnitude f)); [lra |].
        unfold Rdiv. rewrite Rmult_assoc, Rinv_l by lra. lra. }
    split; [lra |]. split.
    + rewrite (normalize_nonzero f Hpos).
      apply vector_eq; simpl; field; lra.
    + split; [intros _; exact Hgt | intros _; lra].
  - exists 1. split; [lra |]. split.
    + apply vector_eq; simpl; ring.
    + split; [intros H; lra | intros H; contradiction].
Qed.

Lemma rawImpulse_axis (p : Vector) :
  (-76 <= getX p <= 76 -> getX (rawImpulse p) = 0) /\
  (-56 <= getY p <= 56 -> getY (rawImpulse p) = 0).
Proof.
  unfold rawImpulse, setX, setY, zero.
  destruct (Rgt_dec (getX p) 76), (Rlt_dec (getX p) (-76)),
           (Rgt_dec (getY p) 56), (Rlt_dec (getY p) (-56));
    simpl; split; intros; try lra; reflexivity.
Qed.

(** The rescaled impulse along one axis only. *)
Lemma rescale_axis_X (x : R) :
  x = maxAirSpeed \/ x = - maxAirSpeed ->
  scale (normalize (create x 0)) maxAirSpeed = create x 0.
Proof.
  intros Hx.
  assert (Hmag : magnitude (create x 0) = maxAirSpeed).
  { apply magnitude_of_square; unfold magSquared, maxAirSpeed in *; simpl;
      destruct Hx; subst; lra. }
  rewrite normalize_nonzero
    by (unfold magSquared, maxAirSpeed in *; simpl; destruct Hx; subst; lra).
  rewrite Hmag. apply vector_eq; unfold maxAirSpeed; simpl; field; lra.
Qed.

Lemma rescale_axis_Y (y : R) :
  y = maxAirSpeed \/ y = - maxAirSpeed ->
  scale (normalize (create 0 y)) maxAirSpeed = create 0 y.
Proof.
  intros Hy.
  assert (Hmag : magnitude (create 0 y) = maxAirSpeed).
  { apply magnitude_of_square; unfold magSquared, maxAirSpeed in *; simpl;
      destruct Hy; subst; lra. }
  rewrite normalize_nonzero
    by (unfold magSquared, maxAirSpeed in *; simpl; destruct Hy; subst; lra).
  rewrite Hmag. apply vector_eq; unfold maxAirSpeed; simpl; field; lra.
Qed.

Lemma bounceOffSides_one_axis (pos vel : Vector) :
  let p := add pos vel in
  let impulse := Craft_bounceOffSides pos vel in
  (getX p > 76 -> -56 <= getY p <= 56 -> impulse = create (- maxAirSpeed) 0) /\
  (getX p < -76 -> -56 <= getY p <= 56 -> impulse = create maxAirSpeed 0) /\
  (getY p > 56 -> -76 <= getX p <= 76 -> impulse = create 0 (- maxAirSpeed)) /\
  (getY p < -56 -> -76 <= getX p <= 76 -> impulse = create 0 maxAirSpeed).
Proof.
  intros p impulse. subst impulse. rewrite bounceOffSides_unfold. fold p.
  destruct (rawImpulse_cases p) as (Hx1 & Hx2 & Hy1 & Hy2 & _ & _).
  destruct (rawImpulse_axis p) as (Hx0 & Hy0).
  assert (Hraw : rawImpulse p = create (getX (rawImpulse p)) (getY (rawImpulse p)))
    by (destruct (rawImpulse p); reflexivity).
  split; [| split; [| split]].
  - intros Hx Hy. rewrite Hraw, (Hx1 Hx), (Hy0 Hy).
    apply rescale_axis_X. right. reflexivity.
  - intros Hx Hy. rewrite Hraw, (Hx2 Hx), (Hy0 Hy).
    apply rescale_axis_X. left. reflexivity.
  - intros Hy Hx. rewrite Hraw, (Hy1 Hy), (Hx0 Hx).
    apply rescale_axis_Y. right. reflexivity.
  - intros Hy Hx. rewrite Hraw, (Hy2 Hy), (Hx0 Hx).
    apply rescale_axis_Y. left. reflexivity.
Qed.

(** X7. The impulse of [bounceOffSides], exactly.  With one bound exceeded it
    is [maxAirSpeed] along that axis, against the overflow, and 0 along the
    other axis.  With a bound exceeded on each axis (a corner) it is
    diagonal: the two components have the same absolute value, the square
    of which is half of [maxAirSpeedSq]. *)
Theorem bounceOffSides_exact (pos vel : Vector) :
  let p := add pos vel in
  let impulse := Craft_bounceOffSides pos vel in
  (getX p > 76 -> -56 <= getY p <= 56 -> impulse = create (- maxAirSpeed) 0) /\
  (getX p < -76 -> -56 <= getY p <= 56 -> impulse = create maxAirSpeed 0) /\
  (getY p > 56 -> -76 <= getX p <= 76 -> impulse = create 0 (- maxAirSpeed)) /\
  (getY p < -56 -> -76 <= getX p <= 76 -> impulse = create 0 maxAirSpeed) /\
  (getX p > 76 \/ getX p < -76 -> getY p > 56 \/ getY p < -56 ->
     getX impulse * getX impulse = maxAirSpeedSq / 2 /\
     getY impulse * getY impulse = maxAirSpeedSq / 2).
Proof.
  intros p impulse.
  destruct (bounceOffSides_one_axis pos vel) as (A1 & A2 & A3 & A4).
  fold p impulse in A1, A2, A3, A4.
  split; [exact A1 | split; [exact A2 | split; [exact A3 | split; [exact A4 |]]]].
  subst impulse. rewrite bounceOffSides_unfold. fold p.
  destruct (rawImpulse_cases p) as (Hx1 & Hx2 & Hy1 & Hy2 & _ & _).
  intros Hx Hy.
  assert (Ex : getX (rawImpulse p) * getX (rawImpulse p) = maxAirSpeedSq).
    { unfold maxAirSpeedSq. destruct Hx as [Hx | Hx];
        [rewrite (Hx1 Hx) | rewrite (Hx2 Hx)]; ring. }
    assert (Ey : getY (rawImpulse p) * getY (rawImpulse p) = maxAirSpeedSq).
    { unfold maxAirSpeedSq. destruct Hy as [Hy | Hy];
        [rewrite (Hy1 Hy) | rewrite (Hy2 Hy)]; ring. }
    assert (Hpos : 0 < magSquared (rawImpulse p)).
    { unfold magSquared. rewrite Ex, Ey, maxAirSpeedSq_value. lra. }
    assert (Hs : 0 < maxAirSpeed) by (unfold maxAirSpeed; lra).
    destruct (rescale_factor (rawImpulse p) maxAirSpeed Hpos Hs)
      as (k & Hk & Fx & Fy).
    pose proof (rescale_magSquared (rawImpulse p) maxAirSpeed Hpos) as Hm.
    unfold magSquared in Hm. fold maxAirSpeedSq in Hm.
    rewrite Fx, Fy in *.
    assert (Hk2 : maxAirSpeedSq * (k * k) = maxAirSpeedSq / 2).
    { replace (getX (rawImpulse p) * k * (getX (rawImpulse p) * k))
        with (getX (rawImpulse p) * getX (rawImpulse p) * (k * k)) in Hm by ring.
      replace (getY (rawImpulse p) * k * (getY (rawImpulse p) * k))
        with (getY (rawImpulse p) * getY (rawImpulse p) * (k * k)) in Hm by ring.
      rewrite Ex, Ey in Hm. lra. }
    split.
    + replace (getX (rawImpulse p) * k * (getX (rawImpulse p) * k))
        with (getX (rawImpulse p) * getX (rawImpulse p) * (k * k)) by ring.
      rewrite Ex. exact Hk2.
    + replace (getY (rawImpulse p) * k * (getY (rawImpulse p) * k))
        with (getY (rawImpulse p) * getY (rawImpulse p) * (k * k)) by ring.
      rewrite Ey. exact Hk2.
Qed.

(** The impulse is the zero vector or has squared magnitude
    [maxAirSpeedSq]. *)
Lemma bounceOffSides_magSquared (pos vel : Vector) :
  magSquared (Craft_bounceOffSides pos vel) = 0 \/
  magSquared (Craft_bounceOffSides pos vel) = maxAirSpeedSq.
Proof.
  rewrite bounceOffSides_unfold.
  destruct (rawImpulse_cases (add pos vel)) as (_ & _ & _ & _ & _ & [Hz | Hpos]).
  - left. rewrite Hz, rescale_zero. apply magSquared_zero.
  - right. rewrite (rescale_magSquared _ _ Hpos). reflexivity.
Qed.

End CraftDynamicsMore.

(** ** Craft.update *)

Section CraftUpdateMore.

Context {M : MatrixOps}.

Lemma handleInput_renderPoints (ctl : Controller) (c : Craft) :
  renderPoints (shape (Craft_handleInput ctl c)) = renderPoints (shape c) /\
  sceneIndex (shape (Craft_handleInput ctl c)) = sceneIndex (shape c).
Proof.
  unfold Craft_handleInput. destruct (A_isPressed ctl); split; reflexivity.
Qed.

Lemma handleInput_thrusting (ctl : Controller) (c : Craft) :
  thrusting (Craft_handleInput ctl c) = A_isPressed ctl.
Proof.
  unfold Craft_handleInput. destruct (A_isPressed ctl); reflexivity.
Qed.

Lemma updateEffects_at_most_one (c : Craft) :
  (length (snd (Craft_updateEffects c)) <= 1)%nat.
Proof.
  unfold Craft_updateEffects. simpl.
  destruct (beganThrusting c), (stoppedThrusting c); simpl; lia.
Qed.

(** What [update] returns, in terms of the craft it is given. *)
Lemma Craft_update_summary (w : World) (ctl : Controller) (c : Craft)
      (pts : list Vector) :
  points (shape c) = Some pts -> (4 <= length pts)%nat ->
  exists s c' fx,
    Shape_update w (shape c) = Ok s /\
    Craft_update w ctl c = Ok (c', fx) /\
    vel c' = add (Craft_calcVelocity w (Craft_handleInput ctl c))
                 (Craft_bounceOffSides (worldPos (shape c))
                    (Craft_calcVelocity w (Craft_handleInput ctl c))) /\
    worldPos (shape c') = add (worldPos (shape c)) (vel c') /\
    thrust c' = thrust (Craft_handleInput ctl c) /\
    heading c' = apply (xform (shape c')) (create 0 1) /\
    thrusting c' = A_isPressed ctl /\
    beganThrusting c' = false /\ stoppedThrusting c' = false /\
    (length fx <= 1)%nat /\
    points (shape c') = Some pts /\
    renderPoints (shape c') = renderPoints s /\
    sceneIndex (shape c') = sceneIndex (shape c).
Proof.
  intros Hpts Hlen.
  destruct (Craft_update_Ok w ctl c pts Hpts Hlen) as (s & Hs & Hp & Hw & Hx & Hup).
  destruct (Shape_update_frame w _ _ Hs) as (_ & _ & _ & Hidx).
  set (c1 := Craft_handleInput ctl (set_shape c s)).
  assert (Hv : Craft_calcVelocity w c1 = Craft_calcVelocity w (Craft_handleInput ctl c)).
  { apply calcVelocity_ext.
    - destruct (handleInput_shape_frame ctl (set_shape c s)) as (_ & _ & E & _).
      destruct (handleInput_shape_frame ctl c) as (_ & _ & E' & _).
      unfold c1. rewrite E, E'. reflexivity.
    - unfold c1. rewrite !handleInput_thrust. reflexivity. }
  assert (Hpos : worldPos (shape c1) = worldPos (shape c)).
  { destruct (handleInput_shape_frame ctl (set_shape c s)) as (_ & E & _).
    unfold c1. rewrite E. exact Hw. }
  exists s, (fst (afterUpdate w ctl c s)), (snd (afterUpdate w ctl c s)).
  split; [exact Hs |].
  split; [rewrite Hup; destruct (afterUpdate w ctl c s); reflexivity |].
  unfold afterUpdate. fold c1.
  cbn [fst snd vel shape worldPos set_worldPos thrust heading thrusting
       beganThrusting stoppedThrusting points renderPoints sceneIndex xform].
  rewrite Hv, Hpos.
  split; [reflexivity |]. split; [reflexivity |].
  split; [unfold c1; rewrite !handleInput_thrust; reflexivity |].
  split; [reflexivity |].
  split; [apply handleInput_thrusting |].
  split; [reflexivity |]. split; [reflexivity |].
  split; [apply updateEffects_at_most_one |].
  split.
  { destruct (handleInput_shape_frame ctl (set_shape c s)) as (E & _).
    unfold c1. rewrite E. exact Hp. }
  destruct (handleInput_renderPoints ctl (set_shape c s)) as (E1 & E2).
  unfold c1. rewrite E1, E2. split; [reflexivity | exact Hidx].
Qed.

Lemma calcVelocity_components (w : World) (c : Craft) :
  - maxAirSpeed <= getX (Craft_calcVelocity w c) <= maxAirSpeed /\
  - maxAirSpeed <= getY (Craft_calcVelocity w c) <= maxAirSpeed.
Proof.
  pose proof (calcVelocity_within_cap w c) as H.
  rewrite maxAirSpeedSq_value in H. unfold magSquared, maxAirSpeed in *.
  split; split; nra.
Qed.

Lemma sum_squares_bound (a b c d m : R) :
  a * a + b * b <= m -> c * c + d * d <= m ->
  (a + c) * (a + c) + (b + d) * (b + d) <= 4 * m.
Proof.
  intros H1 H2.
  pose proof (Rle_0_sqr (a - c)) as Ha. pose proof (Rle_0_sqr (b - d)) as Hb.
  unfold Rsqr in Ha, Hb. nra.
Qed.

(** X8. The velocity and the position that [update] commits.  The position
    moves by the committed velocity.  The committed speed is at most twice
    [maxAirSpeed]: the bounce impulse is added after the speed cap.  For a
    craft at least [maxAirSpeed] inside the bounds on both axes there is no
    bounce: the committed velocity is the one [calcVelocity] returns, within
    the cap. *)
Theorem Craft_update_velocity (w : World) (ctl : Controller) (c : Craft)
        (pts : list Vector) :
  points (shape c) = Some pts -> (4 <= length pts)%nat ->
  exists c' fx,
    Craft_update w ctl c = Ok (c', fx) /\
    worldPos (shape c') = add (worldPos (shape c)) (vel c') /\
    magSquared (vel c') <= 4 * maxAirSpeedSq /\
    (-75.2 <= getX (worldPos (shape c)) <= 75.2 ->
     -55.2 <= getY (worldPos (shape c)) <= 55.2 ->
     vel c' = Craft_calcVelocity w (Craft_handleInput ctl c) /\
     magSquared (vel c') <= maxAirSpeedSq).
Proof.
  intros Hpts Hlen.
  destruct (Craft_update_summary w ctl c pts Hpts Hlen)
    as (s & c' & fx & _ & Hup & Hvel & Hpos & _).
  exists c', fx. split; [exact Hup |]. split; [exact Hpos |].
  set (v := Craft_calcVelocity w (Craft_handleInput ctl c)) in *.
  pose proof (calcVelocity_within_cap w (Craft_handleInput ctl c)) as Hcap.
  fold v in Hcap.
  split.
  - rewrite Hvel.
    set (b := Craft_bounceOffSides (worldPos (shape c)) v).
    change (magSquared (add v b))
      with ((getX v + getX b) * (getX v + getX b)
            + (getY v + getY b) * (getY v + getY b)).
    apply sum_squares_bound; [exact Hcap |].
    change (magSquared b <= maxAirSpeedSq).
    destruct (bounceOffSides_magSquared (worldPos (shape c)) v) as [Hb | Hb];
      fold b in Hb; rewrite Hb; [rewrite maxAirSpeedSq_value |]; lra.
  - intros Hx Hy.
    destruct (calcVelocity_components w (Craft_handleInput ctl c)) as [Hvx Hvy].
    fold v in Hvx, Hvy. unfold maxAirSpeed in Hvx, Hvy.
    assert (Hb : Craft_bounceOffSides (worldPos (shape c)) v = zero).
    { apply bounceOffSides_inside; simpl; lra. }
    rewrite Hb in Hvel.
    assert (E : vel c' = v).
    { rewrite Hvel. apply vector_eq; simpl; ring. }
    split; [exact E | rewrite E; exact Hcap].
Qed.

(** X9. With one bound exceeded by the predicted position, the committed
    velocity along that axis points back inside or is zero: the craft does
    not move further out along this axis. *)
Theorem Craft_update_bounce_inward (w : World) (ctl : Controller) (c : Craft)
        (pts : list Vector) :
  points (shape c) = Some pts -> (4 <= length pts)%nat ->
  let p := predicted w ctl c in
  exists c' fx,
    Craft_update w ctl c = Ok (c', fx) /\
    (getX p > 76 -> -56 <= getY p <= 56 -> getX (vel c') <= 0) /\
    (getX p < -76 -> -56 <= getY p <= 56 -> 0 <= getX (vel c')) /\
    (getY p > 56 -> -76 <= getX p <= 76 -> getY (vel c') <= 0) /\
    (getY p < -56 -> -76 <= getX p <= 76 -> 0 <= getY (vel c')).
Proof.
  intros Hpts Hlen p.
  destruct (Craft_update_summary w ctl c pts Hpts Hlen)
    as (s & c' & fx & _ & Hup & Hvel & _).
  exists c', fx. split; [exact Hup |].
  set (v := Craft_calcVelocity w (Craft_handleInput ctl c)) in *.
  destruct (calcVelocity_components w (Craft_handleInput ctl c)) as [Hvx Hvy].
  fold v in Hvx, Hvy.
  destruct (bounceOffSides_one_axis (worldPos (shape c)) v) as (A1 & A2 & A3 & A4).
  change (add (worldPos (shape c)) v) with p in A1, A2, A3, A4.
  unfold maxAirSpeed in *.
  split; [| split; [| split]]; intros H1 H2; rewrite Hvel.
  - rewrite (A1 H1 H2). simpl. lra.
  - rewrite (A2 H1 H2). simpl. lra.
  - rewrite (A3 H1 H2). simpl. lra.
  - rewrite (A4 H1 H2). simpl. lra.
Qed.

(** X10. Whatever the edge flags of the craft it is given, [update] returns a
    craft with both edge flags cleared and the thrust mode of the button,
    and makes at most one call on the effect system. *)
Theorem Craft_update_clears_flags (w : World) (ctl : Controller) (c : Craft)
        (pts : list Vector) :
  points (shape c) = Some pts -> (4 <= length pts)%nat ->
  exists c' fx,
    Craft_update w ctl c = Ok (c', fx) /\
    beganThrusting c' = false /\ stoppedThrusting c' = false /\
    thrusting c' = A_isPressed ctl /\
    (length fx <= 1)%nat.
Proof.
  intros Hpts Hlen.
  destruct (Craft_update_summary w ctl c pts Hpts Hlen)
    as (s & c' & fx & _ & Hup & _ & _ & _ & _ & Hmode & Hb & Hs & Hfx & _).
  exists c', fx. repeat split; assumption.
Qed.

(** X11. Coasting: over a run of ticks with the thrust button released, each
    tick multiplies the thrust vector by 0.6. *)
Theorem Craft_run_coasting (w : World) (ctls : list Controller) :
  forall (c : Craft) (pts : list Vector),
    points (shape c) = Some pts -> (4 <= length pts)%nat ->
    Forall (fun ctl => A_isPressed ctl = false) ctls ->
    exists c' fxs,
      Craft_run w ctls c = Ok (c', fxs) /\
      thrust c' = scale (thrust c) (0.6 ^ length ctls).
Proof.
  induction ctls as [| ctl rest IH]; intros c pts Hpts Hlen Hall.
  - exists c, []. split; [reflexivity |].
    apply vector_eq; simpl; ring.
  - apply Forall_cons_1 in Hall as [HA Hrest].
    destruct (Craft_update_summary w ctl c pts Hpts Hlen)
      as (s & c1 & fx & _ & Hup & _ & _ & Hthrust & _ & _ & _ & _ & _ & Hpts1 & _).
    rewrite handleInput_thrust, HA in Hthrust.
    destruct (IH c1 pts Hpts1 Hlen Hrest) as (c' & fxs & Hrun & Hth).
    exists c', (fx :: fxs). split.
    + simpl. rewrite Hup. simpl. rewrite Hrun. reflexivity.
    + rewrite Hth, Hthrust. apply vector_eq; simpl; ring.
Qed.

End CraftUpdateMore.

(** ** Craft.update followed by Craft.render *)

Section CraftRenderMore.

Context {M : MatrixOps}.

Lemma Shape_drawLine_ext (s1 s2 : Shape) (f t : Z) :
  renderPoints s1 = renderPoints s2 ->
  Shape_drawLine s1 f t = Shape_drawLine s2 f t.
Proof. intros E. unfold Shape_drawLine. rewrite E. reflexivity. Qed.

Lemma Shape_render_loop_ext (s1 s2 : Shape) (n : nat) :
  renderPoints s1 = renderPoints s2 ->
  forall start, Shape_render_loop s1 n start = Shape_render_loop s2 n start.
Proof.
  intros E. induction n as [| n IH]; intros start; [reflexivity |].
  simpl. rewrite (Shape_drawLine_ext s1 s2 _ _ E), IH. reflexivity.
Qed.

(** [render] reads the vertices (for their number) and the cache only. *)
Lemma Shape_render_ext (s1 s2 : Shape) :
  points s1 = points s2 -> renderPoints s1 = renderPoints s2 ->
  Shape_render s1 = Shape_render s2.
Proof.
  intros Ep Er. unfold Shape_render. rewrite Ep.
  destruct (points s2) as [pts |]; [| reflexivity]. simpl.
  rewrite (Shape_render_loop_ext s1 s2 _ Er),
          (Shape_drawLine_ext s1 s2 _ _ Er).
  reflexivity.
Qed.

Lemma Shape_update_cache (w : World) (s s' : Shape) (pts : list Vector) :
  points s = Some pts -> length pts = 4%nat -> Shape_update w s = Ok s' ->
  forall (i : nat) (p : Vector), pts !! i = Some p ->
    array_get (renderPoints s') (Z.of_nat i) = Some (screenPoint w s p).
Proof.
  intros Hpts Hlen Hup i p Hp.
  destruct (Shape_update_Ok w s pts Hpts ltac:(lia))
    as (p0 & p1 & p2 & p3 & rest & -> & E).
  rewrite E in Hup. injection Hup as <-. simpl renderPoints.
  destruct (four_writes_get (renderPoints s) (screenPoint w s p0)
              (screenPoint w s p1) (screenPoint w s p2) (screenPoint w s p3))
    as (H0 & H1 & H2 & H3 & _ & _).
  pose proof (lookup_lt_Some _ _ _ Hp) as Hi. rewrite Hlen in Hi.
  destruct i as [| [| [| [| i]]]]; [| | | | lia];
    simpl in Hp; injection Hp as <-; assumption.
Qed.

(** X12. The frame that [render] draws after an [update] of a craft is one
    tick late: the cached render points are the screen points of the
    vertices under the transform and at the position the craft had before
    this update, not those it commits.  [render] then returns, with the
    four lines of the craft, and gives the effect sprite the screen point of
    the committed position minus 8 times the committed heading. *)
Theorem Craft_update_then_render (w : World) (ctl : Controller) (c : Craft)
        (pts : list Vector) :
  points (shape c) = Some pts -> length pts = 4%nat ->
  exists c' fx ls,
    Craft_update w ctl c = Ok (c', fx) /\
    (forall (i : nat) (p : Vector), pts !! i = Some p ->
       array_get (renderPoints (shape c')) (Z.of_nat i)
         = Some (screenPoint w (shape c) p)) /\
    Craft_render w c' =
      Ok (ls, apply (toScreen w)
                (sub (worldPos (shape c')) (scale (heading c') 8))) /\
    length ls = 4%nat.
Proof.
  intros Hpts Hlen.
  destruct (Craft_update_summary w ctl c pts Hpts ltac:(lia))
    as (s & c' & fx & Hs & Hup & _ & _ & _ & _ & _ & _ & _ & _ & Hpts' & Hrp & _).
  destruct (Shape_render_after_update w (shape c) s pts Hpts Hlen Hs)
    as (ls & Hr & Hls).
  destruct (Shape_update_frame w _ _ Hs) as (Hp & _).
  assert (Hr' : Shape_render (shape c') = Ok ls).
  { rewrite <- Hr. apply Shape_render_ext; [| exact Hrp].
    rewrite Hpts', Hp, Hpts. reflexivity. }
  exists c', fx, ls. split; [exact Hup |]. split.
  - intros i p Hp'. rewrite Hrp.
    apply (Shape_update_cache w (shape c) s pts Hpts Hlen Hs i p Hp').
  - split; [| exact Hls]. unfold Craft_render. rewrite Hr'. reflexivity.
Qed.

End CraftRenderMore.

(** ** World.add and World.remove on a world that satisfies the invariant *)

Section WorldCollectionMore.

Context {M : MatrixOps}.

(** Under the invariant a shape is at one position only. *)
Lemma indexed_position (w : World) (st : Store) (i j : nat) (r : ref) :
  indexed w st -> shapes w !! i = Some r -> shapes w !! j = Some r -> i = j.
Proof.
  intros Hinv Hi Hj. pose proof (Hinv i r Hi) as Ei.
  rewrite (Hinv j r Hj) in Ei. lia.
Qed.

Lemma removeAt_position {A} (a : list A) (i : nat) :
  (i < length a)%nat -> removeAt a (Z.of_nat i) = take i a ++ drop (S i) a.
Proof.
  intros Hi. unfold removeAt.
  destruct (Z.leb_spec 0 (Z.of_nat i)) as [_ | Hneg]; [| lia].
  destruct (Z.ltb_spec (Z.of_nat i) (Z.of_nat (length a))) as [_ | Hge]; [| lia].
  simpl. rewrite Nat2Z.id. reflexivity.
Qed.

(** X13. [add] of a shape that is not in the collection, in a world that
    satisfies the invariant: the shape is appended, its scene index is its
    position (the former length), and the invariant still holds. *)
Theorem World_add_appends (s : ref) (w : World) (st : Store) :
  indexed w st -> ~ In s (shapes w) ->
  shapes (fst (World_add s w st)) = shapes w ++ [s] /\
  sceneIndex (obj_shape (snd (World_add s w st) s)) = Z.of_nat (length (shapes w)) /\
  indexed (fst (World_add s w st)) (snd (World_add s w st)).
Proof.
  intros Hinv Hnew.
  destruct (World_add_spec s w st) as (Hshapes & Hidx & _).
  split; [exact Hshapes |]. split; [exact Hidx |].
  apply World_add_indexed; assumption.
Qed.

(** X14. [remove] of a shape of the collection, in a world that satisfies the
    invariant, removes this shape and no other: the collection is the
    former one without the element at the position of the shape, the shape
    is no longer in it, and it is one shorter. *)
Theorem World_remove_removes (s : ref) (w : World) (st : Store) (i : nat) :
  indexed w st -> shapes w !! i = Some s ->
  shapes (fst (World_remove s w st)) = take i (shapes w) ++ drop (S i) (shapes w) /\
  ~ In s (shapes (fst (World_remove s w st))) /\
  S (length (shapes (fst (World_remove s w st)))) = length (shapes w).
Proof.
  intros Hinv Hs.
  destruct (World_remove_spec s w st) as (Hshapes & _).
  pose proof (lookup_lt_Some _ _ _ Hs) as Hi.
  assert (E : shapes (fst (World_remove s w st))
              = take i (shapes w) ++ drop (S i) (shapes w)).
  { rewrite Hshapes, (Hinv i s Hs). apply removeAt_position, Hi. }
  split; [exact E |]. split.
  - rewrite E. intros Hin. apply in_app_or in Hin as [Hin | Hin].
    + apply list_elem_of_In, list_elem_of_lookup in Hin as [j Hj].
      pose proof (lookup_lt_Some _ _ _ Hj) as Hlt. rewrite length_take in Hlt.
      rewrite lookup_take_lt in Hj by lia.
      pose proof (indexed_position w st i j s Hinv Hs Hj). lia.
    + apply list_elem_of_In, list_elem_of_lookup in Hin as [j Hj].
      rewrite lookup_drop in Hj.
      pose proof (indexed_position w st i _ s Hinv Hs Hj). lia.
  - rewrite E, length_app, length_take, length_drop. lia.
Qed.

(** X15. The scene indices that [remove] leaves, in a world that satisfied
    the invariant: a shape before the removed one has its position as
    scene index, a shape after it has its position plus one.  So the
    invariant still holds exactly when the removed shape was the last of
    the collection. *)
Theorem World_remove_scene_indices (s : ref) (w : World) (st : Store) (i : nat) :
  indexed w st -> shapes w !! i = Some s ->
  (forall (j : nat) (r : ref),
     shapes (fst (World_remove s w st)) !! j = Some r ->
     sceneIndex (obj_shape (snd (World_remove s w st) r)) =
       Z.of_nat (if (j <? i)%nat then j else S j)) /\
  (indexed (fst (World_remove s w st)) (snd (World_remove s w st)) <->
   S i = length (shapes w)).
Proof.
  intros Hinv Hs.
  pose proof (World_remove_indices s w st i Hinv Hs) as Hidx.
  split; [exact Hidx |].
  pose proof (lookup_lt_Some _ _ _ Hs) as Hi.
  assert (E : shapes (fst (World_remove s w st))
              = take i (shapes w) ++ drop (S i) (shapes w)).
  { destruct (World_remove_spec s w st) as (Hshapes & _).
    rewrite Hshapes, (Hinv i s Hs). apply removeAt_position, Hi. }
  split.
  - intros Hinv'.
    destruct (Nat.eq_dec (S i) (length (shapes w))) as [Heq | Hne]; [exact Heq |].
    exfalso.
    destruct (lookup_lt_is_Some_2 (shapes w) (S i) ltac:(lia)) as [r Hr].
    assert (Hat : shapes (fst (World_remove s w st)) !! i = Some r).
    { rewrite E, lookup_app_r by (rewrite length_take; lia).
      rewrite length_take, lookup_drop.
      replace (S i + (i - i `min` length (shapes w)))%nat with (S i) by lia.
      exact Hr. }
    pose proof (Hidx i r Hat) as E1. pose proof (Hinv' i r Hat) as E2.
    rewrite Nat.ltb_irrefl in E1. lia.
  - intros Hlast j r Hj.
    pose proof (lookup_lt_Some _ _ _ Hj) as Hlt.
    rewrite E, length_app, length_take, length_drop in Hlt.
    rewrite (Hidx j r Hj).
    destruct (Nat.ltb_spec j i); [reflexivity | lia].
Qed.

End WorldCollectionMore.

(** ** World.update and World.render *)

Section WorldUpdateMore.

Context {M : MatrixOps}.

Lemma Craft_update_Ok_inv (w : World) (ctl : Controller) (c : Craft)
      (r : Craft * list Effect) :
  Craft_update w ctl c = Ok r ->
  exists s, Shape_update w (shape c) = Ok s /\ r = afterUpdate w ctl c s.
Proof.
  intros Hup. destruct (Shape_update w (shape c)) as [s | e] eqn:Hs.
  - exists s. split; [reflexivity |].
    rewrite (Craft_update_unfold w ctl c s Hs) in Hup.
    injection Hup as <-. reflexivity.
  - unfold Craft_update in Hup. rewrite Hs in Hup. discriminate.
Qed.

Lemma afterUpdate_shape (w : World) (ctl : Controller) (c : Craft) (s : Shape) :
  points (shape (fst (afterUpdate w ctl c s))) = points s /\
  renderPoints (shape (fst (afterUpdate w ctl c s))) = renderPoints s /\
  sceneIndex (shape (fst (afterUpdate w ctl c s))) = sceneIndex s.
Proof.
  unfold afterUpdate. cbn [fst shape points renderPoints sceneIndex set_worldPos].
  destruct (handleInput_shape_frame ctl (set_shape c s)) as (E & _).
  destruct (handleInput_renderPoints ctl (set_shape c s)) as (E1 & E2).
  rewrite E, E1, E2. repeat split.
Qed.

(** What [update] of an object keeps and what it needs. *)
Lemma Obj_update_frame (w : World) (ctl : Controller) (o o' : Obj)
      (fx : list Effect) :
  Obj_update w ctl o = Ok (o', fx) ->
  fourVertices o /\
  points (obj_shape o') = points (obj_shape o) /\
  sceneIndex (obj_shape o') = sceneIndex (obj_shape o) /\
  exists s, Shape_update w (obj_shape o) = Ok s /\
            renderPoints (obj_shape o') = renderPoints s.
Proof.
  intros Hup. destruct o as [s0 | c]; simpl in Hup.
  - destruct (Shape_update w s0) as [s' |] eqn:Hs; simpl in Hup; [| discriminate].
    injection Hup as <- <-.
    destruct (Shape_update_frame w _ _ Hs) as (Hp & _ & _ & Hi).
    split; [apply (Shape_update_Ok_inv w s0 s' Hs) |].
    simpl. repeat split; try assumption. exists s'. split; [exact Hs | reflexivity].
  - destruct (Craft_update w ctl c) as [r |] eqn:Hc; simpl in Hup; [| discriminate].
    injection Hup as <- <-.
    destruct (Craft_update_Ok_inv w ctl c r Hc) as (s & Hs & ->).
    destruct (Shape_update_frame w _ _ Hs) as (Hp & _ & _ & Hi).
    destruct (afterUpdate_shape w ctl c s) as (E1 & E2 & E3).
    split; [apply (Shape_update_Ok_inv w (shape c) s Hs) |].
    cbn [obj_shape]. rewrite E1, E3. repeat split; try assumption.
    exists s. split; [exact Hs | exact E2].
Qed.

Lemma Obj_update_Ok (w : World) (ctl : Controller) (o : Obj) :
  fourVertices o -> exists o' fx, Obj_update w ctl o = Ok (o', fx).
Proof.
  intros (pts & Hpts & Hlen). destruct o as [s0 | c]; simpl in *.
  - destruct (Shape_update_Ok w s0 pts Hpts Hlen) as (? & ? & ? & ? & ? & _ & E).
    rewrite E. simpl. eauto.
  - destruct (Craft_update_Ok w ctl c pts Hpts Hlen) as (s & _ & _ & _ & _ & E).
    rewrite E. simpl. eauto.
Qed.

(** After its update an object of four vertices can be drawn. *)
Lemma Obj_update_drawable (w : World) (ctl : Controller) (o o' : Obj)
      (fx : list Effect) :
  quad o -> Obj_update w ctl o = Ok (o', fx) -> drawable o'.
Proof.
  intros (pts & Hpts & Hlen) Hup.
  destruct (Obj_update_frame w ctl o o' fx Hup) as (_ & Hp & _ & s & Hs & Hrp).
  split.
  - exists pts. rewrite Hp. split; assumption.
  - intros i Hi. unfold written. rewrite Hrp.
    destruct (lookup_lt_is_Some_2 pts i ltac:(lia)) as [p Hpi].
    exists (screenPoint w (obj_shape o) p).
    apply (Shape_update_cache w (obj_shape o) s pts Hpts Hlen Hs i p Hpi).
Qed.

Lemma drawable_quad (o : Obj) : drawable o -> quad o.
Proof. intros [Hq _]. exact Hq. Qed.

Lemma quad_fourVertices (o : Obj) : quad o -> fourVertices o.
Proof. intros (pts & Hpts & Hlen). exists pts. split; [exact Hpts | lia]. Qed.

(** An object that can be drawn is rendered without a throw, as four
    lines. *)
Lemma Obj_render_drawable (w : World) (o : Obj) :
  drawable o ->
  exists d, Obj_render w o = Ok d /\ length (fst d) = 4%nat.
Proof.
  intros [(pts & Hpts & Hlen) Hw].
  destruct (Shape_render_written (obj_shape o) pts Hpts) as (ls & Hr & Hls).
  - intros ->. discriminate Hlen.
  - intros i Hi. apply Hw. lia.
  - destruct o as [s0 | c]; simpl in *.
    + rewrite Hr. simpl. eexists. split; [reflexivity |]. simpl. lia.
    + unfold Craft_render. rewrite Hr. simpl.
      eexists. split; [reflexivity |]. simpl. lia.
Qed.

(** The pass of [update] over a list of shapes: what it keeps. *)
Lemma World_update_loop_frame (w : World) (ctl : Controller) (rs : list ref) :
  forall (st st' : Store) (fx : list Effect),
    World_update_loop w ctl rs st = Ok (st', fx) ->
    forall q : ref,
      points (obj_shape (st' q)) = points (obj_shape (st q)) /\
      sceneIndex (obj_shape (st' q)) = sceneIndex (obj_shape (st q)) /\
      (~ In q rs -> st' q = st q).
Proof.
  induction rs as [| r rest IH]; intros st st' fx Hloop q.
  - simpl in Hloop. injection Hloop as <- <-. repeat split.
  - simpl in Hloop.
    destruct (Obj_update w ctl (st r)) as [[o' fx1] |] eqn:Hu;
      simpl in Hloop; [| discriminate].
    destruct (World_update_loop w ctl rest (store_set st r o'))
      as [[st1 fx2] |] eqn:Hrest; simpl in Hloop; [| discriminate].
    injection Hloop as <- <-.
    destruct (IH _ _ _ Hrest q) as (Hp & Hi & Hout).
    destruct (Obj_update_frame w ctl _ _ _ Hu) as (_ & Hp' & Hi' & _).
    destruct (Nat.eq_dec q r) as [-> | Hne].
    + rewrite store_set_eq in Hp, Hi.
      split; [congruence |]. split; [congruence |].
      intros Hnot. exfalso. apply Hnot. left. reflexivity.
    + rewrite store_set_ne in Hp, Hi by exact Hne.
      split; [exact Hp |]. split; [exact Hi |].
      intros Hnot. rewrite Hout by (intros Hin; apply Hnot; right; exact Hin).
      apply store_set_ne, Hne.
Qed.

(** The pass returns exactly when every shape of the list has at least
    four vertices. *)
Lemma World_update_loop_returns (w : World) (ctl : Controller) (rs : list ref) :
  forall st : Store,
    (exists res, World_update_loop w ctl rs st = Ok res) <->
    (forall r, In r rs -> fourVertices (st r)).
Proof.
  induction rs as [| r rest IH]; intros st.
  - split; [intros _ r [] | intros _; eexists; reflexivity].
  - split.
    + intros [[st' fx] Hloop] q Hq. simpl in Hloop.
      destruct (Obj_update w ctl (st r)) as [[o' fx1] |] eqn:Hu;
        simpl in Hloop; [| discriminate].
      destruct (World_update_loop w ctl rest (store_set st r o'))
        as [[st1 fx2] |] eqn:Hrest; simpl in Hloop; [| discriminate].
      destruct (Obj_update_frame w ctl _ _ _ Hu) as (H4 & Hp & _).
      destruct (Nat.eq_dec q r) as [-> | Hne]; [exact H4 |].
      destruct Hq as [-> | Hq]; [contradiction Hne; reflexivity |].
      pose proof (proj1 (IH _) (ex_intro _ _ Hrest) q Hq) as Hq4.
      rewrite store_set_ne in Hq4 by exact Hne. exact Hq4.
    + intros Hall.
      destruct (Obj_update_Ok w ctl (st r) (Hall r (or_introl eq_refl)))
        as (o' & fx1 & Hu).
      destruct (Obj_update_frame w ctl _ _ _ Hu) as (H4 & Hp & _).
      destruct (proj2 (IH (store_set st r o'))) as [[st1 fx2] Hrest].
      { intros q Hq. destruct (Nat.eq_dec q r) as [-> | Hne].
        - rewrite store_set_eq. destruct H4 as (pts & Hpts & Hlen).
          exists pts. rewrite Hp. split; assumption.
        - rewrite store_set_ne by exact Hne. apply Hall. right. exact Hq. }
      simpl. rewrite Hu. simpl. rewrite Hrest. simpl. eexists. reflexivity.
Qed.

(** After the pass every shape of the list can be drawn, when they all
    have four vertices. *)
Lemma World_update_loop_drawable (w : World) (ctl : Controller) (rs : list ref) :
  forall (st st' : Store) (fx : list Effect),
    (forall r, In r rs -> quad (st r)) ->
    World_update_loop w ctl rs st = Ok (st', fx) ->
    forall r, In r rs -> drawable (st' r).
Proof.
  induction rs as [| r rest IH]; intros st st' fx Hall Hloop q Hq; [destruct Hq |].
  simpl in Hloop.
  destruct (Obj_update w ctl (st r)) as [[o' fx1] |] eqn:Hu;
    simpl in Hloop; [| discriminate].
  destruct (World_update_loop w ctl rest (store_set st r o'))
    as [[st1 fx2] |] eqn:Hrest; simpl in Hloop; [| discriminate].
  injection Hloop as <- <-.
  pose proof (Obj_update_drawable w ctl _ _ _ (Hall r (or_introl eq_refl)) Hu) as Hd.
  assert (Hall' : forall r', In r' rest -> quad (store_set st r o' r')).
  { intros r' Hr'. destruct (Nat.eq_dec r' r) as [-> | Hne].
    - rewrite store_set_eq. apply drawable_quad, Hd.
    - rewrite store_set_ne by exact Hne. apply Hall. right. exact Hr'. }
  destruct (in_dec Nat.eq_dec q rest) as [Hin | Hout].
  - apply (IH _ _ _ Hall' Hrest q Hin).
  - destruct Hq as [<- | Hq]; [| contradiction].
    destruct (World_update_loop_frame w ctl rest _ _ _ Hrest r) as (_ & _ & Hsame).
    rewrite (Hsame Hout), store_set_eq. exact Hd.
Qed.

Lemma World_render_loop_drawable (w : World) (st : Store) (rs : list ref) :
  (forall r, In r rs -> drawable (st r)) ->
  exists ds,
    World_render_loop w rs st = Ok ds /\
    length ds = length rs /\
    Forall (fun d => length (fst d) = 4%nat) ds.
Proof.
  induction rs as [| r rest IH]; intros Hall.
  - exists []. repeat split. constructor.
  - destruct (Obj_render_drawable w (st r) (Hall r (or_introl eq_refl)))
      as (d & Hd & Hlen).
    destruct IH as (ds & Hds & Hl & Hf).
    { intros q Hq. apply Hall. right. exact Hq. }
    exists (d :: ds). simpl. rewrite Hd. simpl. rewrite Hds. simpl.
    split; [reflexivity |]. split; [rewrite Hl; reflexivity |].
    constructor; assumption.
Qed.

(** X16. [World.update] returns exactly when every shape of the collection
    has at least four vertices: one shape with fewer (or with [points]
    never assigned) makes the whole pass throw. *)
Theorem World_update_returns_iff (w : World) (ctl : Controller) (st : Store) :
  (exists res, World_update w ctl st = Ok res) <->
  (forall r, In r (shapes w) -> fourVertices (st r)).
Proof. apply World_update_loop_returns. Qed.

(** X17. [World.update] changes neither the vertices nor the scene index of
    any shape, and leaves every object that is not in the collection as it
    was; so it keeps the invariant of the collection. *)
Theorem World_update_keeps_indices (w : World) (ctl : Controller)
        (st st' : Store) (fx : list Effect) :
  World_update w ctl st = Ok (st', fx) ->
  (forall r, points (obj_shape (st' r)) = points (obj_shape (st r)) /\
             sceneIndex (obj_shape (st' r)) = sceneIndex (obj_shape (st r))) /\
  (forall r, ~ In r (shapes w) -> st' r = st r) /\
  (indexed w st -> indexed w st').
Proof.
  intros Hup.
  pose proof (World_update_loop_frame w ctl (shapes w) st st' fx Hup) as Hfr.
  split; [| split].
  - intros r. destruct (Hfr r) as (Hp & Hi & _). split; assumption.
  - intros r Hr. destruct (Hfr r) as (_ & _ & Hout). apply Hout, Hr.
  - intros Hinv i r Hi. destruct (Hfr r) as (_ & E & _).
    rewrite E. apply Hinv, Hi.
Qed.

(** X18. An update pass followed by a render pass: when every shape of the
    collection has four vertices, [World.update] returns and the
    [World.render] that follows returns too, with four lines drawn for each
    shape of the collection. *)
Theorem World_update_then_render (w : World) (ctl : Controller) (st : Store) :
  (forall r, In r (shapes w) -> quad (st r)) ->
  exists st' fx ds,
    World_update w ctl st = Ok (st', fx) /\
    World_render w st' = Ok ds /\
    length ds = length (shapes w) /\
    Forall (fun d => length (fst d) = 4%nat) ds.
Proof.
  intros Hall.
  destruct (proj2 (World_update_loop_returns w ctl (shapes w) st))
    as [[st' fx] Hup].
  { intros r Hr. apply quad_fourVertices, Hall, Hr. }
  destruct (World_render_loop_drawable w st' (shapes w)) as (ds & Hds & Hl & Hf).
  { apply (World_update_loop_drawable w ctl (shapes w) st st' fx Hall Hup). }
  exists st', fx, ds. repeat split; assumption.
Qed.

End WorldUpdateMore.

(** ** The program: one craft in the world, update ticks, then paint *)

Section GameMore.

Context {M : MatrixOps}.

Lemma game_start_shapes : shapes (fst game_start) = [0%nat].
Proof. reflexivity. Qed.

(** One update tick of the game, from cleared edge flags. *)
Lemma game_tick (ctl : Controller) (st : Store) (c : Craft) :
  st 0%nat = CraftObj c -> points (shape c) = Some craftPoints ->
  beganThrusting c = false -> stoppedThrusting c = false ->
  exists c',
    World_update (fst game_start) ctl st =
      Ok (store_set st 0%nat (CraftObj c'),
          edge_effect (thrusting c) (A_isPressed ctl)) /\
    points (shape c') = Some craftPoints /\
    thrusting c' = A_isPressed ctl /\
    beganThrusting c' = false /\ stoppedThrusting c' = false /\
    drawable (CraftObj c').
Proof.
  intros Hst Hpts Hb Hs.
  destruct (Craft_update_tick (fst game_start) ctl c craftPoints Hpts
              ltac:(simpl; lia) Hb Hs) as (c' & Hup & Hpts' & Hmode & Hb' & Hs').
  assert (Hobj : Obj_update (fst game_start) ctl (CraftObj c) =
                 Ok (CraftObj c', edge_effect (thrusting c) (A_isPressed ctl))).
  { unfold Obj_update. rewrite Hup. reflexivity. }
  exists c'. split; [| repeat split; try assumption].
  - unfold World_update. rewrite game_start_shapes.
    cbn [World_update_loop]. rewrite Hst, Hobj.
    cbn [bind fst snd]. rewrite app_nil_r. reflexivity.
  - exists craftPoints. split; [exact Hpts' | reflexivity].
  - eapply (Obj_update_drawable (fst game_start) ctl (CraftObj c)); [| exact Hobj].
    exists craftPoints. split; [exact Hpts | reflexivity].
Qed.

(** A run of update ticks of the game, from a craft that can be
    drawn. *)
Lemma game_ticks_drawable (ctls : list Controller) :
  forall (st : Store) (c : Craft),
    st 0%nat = CraftObj c -> points (shape c) = Some craftPoints ->
    beganThrusting c = false -> stoppedThrusting c = false ->
    drawable (st 0%nat) ->
    exists st',
      game_ticks (fst game_start) ctls st =
        Ok (st', edge_effects (thrusting c) (map A_isPressed ctls)) /\
      drawable (st' 0%nat).
Proof.
  induction ctls as [| ctl rest IH]; intros st c Hst Hpts Hb Hs Hd.
  - exists st. split; [reflexivity | exact Hd].
  - destruct (game_tick ctl st c Hst Hpts Hb Hs)
      as (c1 & Hup & Hpts1 & Hmode & Hb1 & Hs1 & Hd1).
    destruct (IH (store_set st 0%nat (CraftObj c1)) c1
                (store_set_eq _ _ _) Hpts1 Hb1 Hs1) as (st' & Hrun & Hd').
    { rewrite store_set_eq. exact Hd1. }
    exists st'. split; [| exact Hd'].
    cbn [game_ticks map]. rewrite Hup. cbn [bind fst snd].
    rewrite Hrun. cbn [bind fst snd edge_effects]. rewrite Hmode.
    reflexivity.
Qed.

(** X19. The program never throws once it has started with an update tick.
    [world.render] before any [world.update] throws at the render point of
    index 0.  After one update tick or more, whatever the buttons at each
    tick, no [world.update] has thrown, the effect calls of each tick are
    those owed to the changes of thrust mode (from COASTING), and
    [world.render] returns with the four lines of the craft. *)
Theorem game_update_then_paint (ctl : Controller) (ctls : list Controller) :
  World_render (fst game_start) (snd game_start) = Throw (UndefinedRenderPoint 0) /\
  exists st' d,
    game_ticks (fst game_start) (ctl :: ctls) (snd game_start) =
      Ok (st', edge_effects false (map A_isPressed (ctl :: ctls))) /\
    World_render (fst game_start) st' = Ok [d] /\
    length (fst d) = 4%nat.
Proof.
  split; [reflexivity |].
  destruct (game_tick ctl (snd game_start) _ eq_refl eq_refl eq_refl eq_refl)
    as (c1 & Hup & Hpts1 & Hmode & Hb1 & Hs1 & Hd1).
  destruct (game_ticks_drawable ctls (store_set (snd game_start) 0%nat (CraftObj c1))
              c1 (store_set_eq _ _ _) Hpts1 Hb1 Hs1) as (st' & Hrun & Hd').
  { rewrite store_set_eq. exact Hd1. }
  destruct (Obj_render_drawable (fst game_start) (st' 0%nat) Hd') as (d & Hd & Hlen).
  exists st', d. split; [| split; [| exact Hlen]].
  - cbn [game_ticks map]. rewrite Hup. cbn [bind fst snd].
    rewrite Hrun. cbn [bind fst snd edge_effects]. rewrite Hmode.
    reflexivity.
  - unfold World_render. rewrite game_start_shapes.
    cbn [World_render_loop]. rewrite Hd. reflexivity.
Qed.

End GameMore.

(** ** Witnesses of the further properties, with the affine matrices *)

Section MoreWitnesses.

#[local] Existing Instance AffineOps.

Lemma threeShapes_indexed : indexed (fst threeShapes) (snd threeShapes).
Proof.
  intros i r Hi. destruct i as [| [| [| i]]]; simpl in Hi;
    try discriminate; injection Hi as <-; reflexivity.
Qed.

(** The craft as constructed, at the centre of the screen: no bounce,
    and the committed velocity is within the cap. *)
Lemma Craft_update_velocity_witness :
  exists c' fx,
    Craft_update World_new (mkController true false false) Craft_new = Ok (c', fx) /\
    magSquared (vel c') <= maxAirSpeedSq.
Proof.
  destruct (Craft_update_velocity World_new (mkController true false false)
              Craft_new craftPoints eq_refl (le_n 4))
    as (c' & fx & Hup & _ & _ & Hin).
  exists c', fx. split; [exact Hup |].
  apply Hin; simpl; lra.
Defined.

(** A craft at (100, 0), beyond the right bound: the committed X
    velocity is not positive. *)
Lemma Craft_update_bounce_inward_witness :
  exists c' fx,
    Craft_update World_new (mkController false false false)
                 (craftAt (create 100 0)) = Ok (c', fx) /\
    getX (vel c') <= 0.
Proof.
  destruct (Craft_update_bounce_inward World_new (mkController false false false)
              (craftAt (create 100 0)) craftPoints eq_refl (le_n 4))
    as (c' & fx & Hup & Hright & _).
  exists c', fx. split; [exact Hup |].
  destruct (calcVelocity_components World_new
              (Craft_handleInput (mkController false false false)
                                 (craftAt (create 100 0)))) as [Hx Hy].
  unfold maxAirSpeed in Hx, Hy.
  apply Hright; unfold predicted;
    change (worldPos (shape (craftAt (create 100 0)))) with (create 100 0);
    cbn [add getX getY]; lra.
Defined.

(** A craft with both edge flags set. *)
Lemma Craft_update_clears_flags_witness :
  exists c' fx,
    Craft_update World_new (mkController true false false)
      (mkCraft (shape Craft_new) (create 0 1) zero zero true true true)
      = Ok (c', fx) /\
    beganThrusting c' = false /\ stoppedThrusting c' = false.
Proof.
  destruct (Craft_update_clears_flags World_new (mkController true false false)
              (mkCraft (shape Craft_new) (create 0 1) zero zero true true true)
              craftPoints eq_refl (le_n 4))
    as (c' & fx & Hup & Hb & Hs & _).
  exists c', fx. repeat split; assumption.
Defined.

(** Two coasting ticks of a craft with thrust (0, 1). *)
Lemma Craft_run_coasting_witness :
  exists c' fxs,
    Craft_run World_new
      [mkController false false false; mkController false true false]
      (flying zero (create 0 1)) = Ok (c', fxs) /\
    thrust c' = scale (create 0 1) (0.6 ^ 2).
Proof.
  apply (Craft_run_coasting World_new
           [mkController false false false; mkController false true false]
           (flying zero (create 0 1)) craftPoints eq_refl (le_n 4)).
  repeat constructor.
Defined.

(** The craft as constructed: one update, then render. *)
Lemma Craft_update_then_render_witness :
  exists c' fx ls pos,
    Craft_update World_new (mkController false false true) Craft_new = Ok (c', fx) /\
    array_get (renderPoints (shape c')) (Z.of_nat 0)
      = Some (screenPoint World_new (shape Craft_new) (create 0 8)) /\
    Craft_render World_new c' = Ok (ls, pos) /\
    length ls = 4%nat.
Proof.
  destruct (Craft_update_then_render World_new (mkController false false true)
              Craft_new craftPoints eq_refl eq_refl)
    as (c' & fx & ls & Hup & Hrp & Hr & Hls).
  exists c', fx, ls. eexists. split; [exact Hup |].
  split; [apply (Hrp 0%nat (create 0 8) eq_refl) |].
  split; [exact Hr | exact Hls].
Defined.

(** A fourth shape added to the world of the shapes 0, 1 and 2: it is
    appended at position 3 with scene index 3, and the three shapes before
    it keep their scene indices. *)
Lemma World_add_appends_witness :
  shapes (fst (World_add 3%nat (fst threeShapes) (snd threeShapes)))
    = [0%nat; 1%nat; 2%nat; 3%nat] /\
  sceneIndex (obj_shape
     (snd (World_add 3%nat (fst threeShapes) (snd threeShapes)) 3%nat)) = 3%Z /\
  indexed (fst (World_add 3%nat (fst threeShapes) (snd threeShapes)))
          (snd (World_add 3%nat (fst threeShapes) (snd threeShapes))).
Proof.
  refine (World_add_appends 3%nat (fst threeShapes) (snd threeShapes)
            threeShapes_indexed _).
  simpl. intros [H | [H | [H | H]]];
    [discriminate H | discriminate H | discriminate H | exact H].
Defined.

(** The middle one of three shapes. *)
Lemma World_remove_removes_witness :
  shapes (fst (World_remove 1%nat (fst threeShapes) (snd threeShapes)))
    = [0%nat; 2%nat].
Proof.
  exact (proj1 (World_remove_removes 1%nat (fst threeShapes) (snd threeShapes)
                  1%nat threeShapes_indexed eq_refl)).
Defined.

(** The first one of three shapes: the last shape is then at position 1
    with scene index 2. *)
Lemma World_remove_scene_indices_witness :
  sceneIndex (obj_shape
     (snd (World_remove 0%nat (fst threeShapes) (snd threeShapes)) 2%nat))
    = 2%Z.
Proof.
  exact (proj1 (World_remove_scene_indices 0%nat (fst threeShapes)
                  (snd threeShapes) 0%nat threeShapes_indexed eq_refl)
           1%nat 2%nat eq_refl).
Defined.

(** The world of the program, one update. *)
Lemma World_update_keeps_indices_witness :
  exists st' fx,
    World_update (fst game_start) (mkController true false false)
                 (snd game_start) = Ok (st', fx) /\
    sceneIndex (obj_shape (st' 0%nat)) = 0%Z.
Proof.
  destruct (proj2 (World_update_loop_returns (fst game_start)
              (mkController true false false) [0%nat] (snd game_start)))
    as [[st' fx] Hup].
  { intros r [<- | []]. exists craftPoints. split; [reflexivity | simpl; lia]. }
  exists st', fx. split; [exact Hup |].
  destruct (World_update_keeps_indices (fst game_start)
              (mkController true false false) (snd game_start) st' fx Hup)
    as (Hall & _).
  destruct (Hall 0%nat) as [_ Hidx]. rewrite Hidx. reflexivity.
Defined.

Lemma World_update_then_render_witness :
  exists st' fx ds,
    World_update (fst game_start) (mkController true false false)
                 (snd game_start) = Ok (st', fx) /\
    World_render (fst game_start) st' = Ok ds /\
    length ds = 1%nat.
Proof.
  destruct (World_update_then_render (fst game_start)
              (mkController true false false) (snd game_start))
    as (st' & fx & ds & Hup & Hr & Hlen & _).
  { intros r [<- | []]. exists craftPoints. split; reflexivity. }
  exists st', fx, ds. repeat split; assumption.
Defined.

End MoreWitnesses.
